(** * Cinema booking API: seat availability and order creation

    A shallow embedding of [cinema/serializers.py] and [cinema/views.py].
    Database tables are finite maps from primary keys to rows, foreign keys
    are primary keys of the referenced table, and the handlers that write
    run in a small state-and-exception monad whose [atomic] combinator is
    [django.db.transaction.atomic]. *)

From stdpp Require Import gmap strings list fin_maps sorting.
From Stdlib Require Import Ascii.
From Stdlib Require DecimalString DecimalN.

Open Scope Z_scope.

(** ** Tables *)

Record Movie := mkMovie {
  title : string;
  description : string;
  duration : Z }.

Record CinemaHall := mkCinemaHall {
  name : string;
  rows : Z;
  seats_in_row : Z }.

Record MovieSession := mkMovieSession {
  show_time : Z;
  movie : Z;
  cinema_hall : Z }.

Record Order := mkOrder {
  user : Z;
  created_at : Z }.

Record Ticket := mkTicket {
  row : Z;
  seat : Z;
  movie_session : Z;
  order : Z }.

Record Store := mkStore {
  movies : gmap Z Movie;
  cinema_halls : gmap Z CinemaHall;
  movie_sessions : gmap Z MovieSession;
  orders : gmap Z Order;
  tickets : gmap Z Ticket }.

(** Modelled from the spec: [CinemaHall.capacity], a property declared in
    cinema/models.py; the capacity of a hall is rows times seats_in_row. *)
Definition capacity (h : CinemaHall) : Z := rows h * seats_in_row h.

#[global] Instance Movie_eq_dec : EqDecision Movie.
Proof. solve_decision. Defined.
#[global] Instance CinemaHall_eq_dec : EqDecision CinemaHall.
Proof. solve_decision. Defined.
#[global] Instance MovieSession_eq_dec : EqDecision MovieSession.
Proof. solve_decision. Defined.
#[global] Instance Order_eq_dec : EqDecision Order.
Proof. solve_decision. Defined.
#[global] Instance Ticket_eq_dec : EqDecision Ticket.
Proof. solve_decision. Defined.

Definition set_movies (st : Store) (m : gmap Z Movie) : Store :=
  mkStore m (cinema_halls st) (movie_sessions st) (orders st) (tickets st).
Definition set_cinema_halls (st : Store) (m : gmap Z CinemaHall) : Store :=
  mkStore (movies st) m (movie_sessions st) (orders st) (tickets st).
Definition set_movie_sessions (st : Store) (m : gmap Z MovieSession) : Store :=
  mkStore (movies st) (cinema_halls st) m (orders st) (tickets st).
Definition set_orders (st : Store) (m : gmap Z Order) : Store :=
  mkStore (movies st) (cinema_halls st) (movie_sessions st) m (tickets st).
Definition set_tickets (st : Store) (m : gmap Z Ticket) : Store :=
  mkStore (movies st) (cinema_halls st) (movie_sessions st) (orders st) m.

(** The key an auto-incremented primary key column hands out next. *)
Definition next_pk {A} (m : gmap Z A) : Z :=
  1 + foldr Z.max 0 (map_to_list m).*1.

(** [QuerySet.exists()] and [QuerySet.count()] on the rows a filter kept. *)
Definition qs_exists {A} (m : gmap Z A) : bool := bool_decide (m ≠ ∅).
Definition qs_count {A} (m : gmap Z A) : Z := Z.of_nat (size m).

(** ** Exceptions and the request monad *)

(** The detail of a [serializers.ValidationError]: a message or a dict
    with one field; [NoErrors] is the empty dict a [ListSerializer] records
    for an item that passed, and [ItemErrors] is the exception it raises
    with the details of all its items. [FieldErrors] is the exception a
    model serializer raises with the details of its fields,
    [ProtectedError] the one of a deletion that a foreign key protects
    against, and [DataError] the one of a storage whose integer arithmetic
    left its range. *)
Inductive ErrorDetail :=
| NoErrors
| Message (msg : string)
| FieldError (field msg : string).

Inductive Exception :=
| ValidationError (detail : ErrorDetail)
| ItemErrors (details : list ErrorDetail)
| IntegrityError
| ValueError
| DoesNotExist
| FieldErrors (details : list ErrorDetail)
| ProtectedError
| DataError.

Inductive RequestUser :=
| AnonymousUser
| User (uid : Z).

Definition DB (A : Type) : Type := Store → (Exception + A) * Store.

Definition ret {A} (a : A) : DB A := λ st, (inr a, st).
Definition raise {A} (e : Exception) : DB A := λ st, (inl e, st).
Definition bind {A B} (m : DB A) (k : A → DB B) : DB B :=
  λ st, match m st with
        | (inl e, st') => (inl e, st')
        | (inr a, st') => k a st'
        end.

Notation "'do' x <~ m ; k" := (bind m (λ x, k))
  (at level 10, x name, m at level 100, k at level 200).

(** [transaction.atomic]: when the body raises, the writes it made are
    rolled back and the exception goes on. *)
Definition atomic {A} (m : DB A) : DB A :=
  λ st, match m st with
        | (inl e, _) => (inl e, st)
        | (inr a, st') => (inr a, st')
        end.

(** ** cinema/serializers.py *)

(** The validated attributes of one submitted ticket: [movie_session] is
    the session object the primary key field resolved, kept with its key. *)
Record TicketAttrs := mkAttrs {
  attrs_row : Z;
  attrs_seat : Z;
  attrs_movie_session : Z * MovieSession }.

(** One item of the request body, before validation. *)
Record TicketData := mkData {
  data_row : Z;
  data_seat : Z;
  data_movie_session : Z }.

(** [Ticket.objects.filter(movie_session=.., row=.., seat=..)] *)
Definition tickets_at (st : Store) (ms_id r s : Z) : gmap Z Ticket :=
  filter (λ kt, movie_session kt.2 = ms_id ∧ row kt.2 = r ∧ seat kt.2 = s)
         (tickets st).

(** [TicketCreateSerializer.validate] *)
Definition validate (st : Store) (attrs : TicketAttrs) : Exception + TicketAttrs :=
  let row := attrs_row attrs in
  let seat := attrs_seat attrs in
  let movie_session := attrs_movie_session attrs in
  match cinema_halls st !! cinema_hall movie_session.2 with
  | None => inl DoesNotExist
  | Some cinema_hall =>
      if bool_decide (row < 1 ∨ row > rows cinema_hall) then
        inl (ValidationError (FieldError "row" "Row number is out of range."))
      else if bool_decide (seat < 1 ∨ seat > seats_in_row cinema_hall) then
        inl (ValidationError (FieldError "seat" "Seat number is out of range."))
      else
        let is_taken := qs_exists (tickets_at st movie_session.1 row seat) in
        if is_taken then
          inl (ValidationError (Message "This place is already taken."))
        else inr attrs
  end.

(** The fields of [TicketCreateSerializer]: the primary key of the session
    is looked up, and an unknown key is a validation error of that field
    (the message of the framework also quotes the key). *)
Definition to_internal_value (st : Store) (d : TicketData) : Exception + TicketAttrs :=
  match movie_sessions st !! data_movie_session d with
  | None =>
      inl (ValidationError
             (FieldError "movie_session" "Invalid pk - object does not exist."))
  | Some ms => inr (mkAttrs (data_row d) (data_seat d) (data_movie_session d, ms))
  end.

(** [Serializer.run_validation] of one item: the fields, then [validate]. *)
Definition run_child_validation (st : Store) (d : TicketData) : Exception + TicketAttrs :=
  match to_internal_value st d with
  | inl e => inl e
  | inr attrs => validate st attrs
  end.

(** [ListSerializer.to_internal_value]: every item is validated and the
    validation errors are collected; any other exception goes on at once. *)
Fixpoint validate_items (st : Store) (data : list TicketData)
  : Exception + (list TicketAttrs * list ErrorDetail) :=
  match data with
  | [] => inr ([], [])
  | d :: data' =>
      match run_child_validation st d with
      | inr attrs =>
          match validate_items st data' with
          | inl e => inl e
          | inr (ret, errors) => inr (attrs :: ret, NoErrors :: errors)
          end
      | inl (ValidationError detail) =>
          match validate_items st data' with
          | inl e => inl e
          | inr (ret, errors) => inr (ret, detail :: errors)
          end
      | inl e => inl e
      end
  end.

Definition any_errors (errors : list ErrorDetail) : bool :=
  existsb (λ d, match d with NoErrors => false | _ => true end) errors.

Definition tickets_run_validation (st : Store) (data : list TicketData)
  : Exception + list TicketAttrs :=
  match validate_items st data with
  | inl e => inl e
  | inr (ret, errors) => if any_errors errors then inl (ItemErrors errors) else inr ret
  end.

(** [OrderCreateSerializer.validate_tickets]; [seen] is the set built so
    far, empty when the loop starts. *)
Fixpoint validate_tickets_loop (seen : gset (Z * Z * Z)) (tickets : list TicketAttrs)
  : Exception + unit :=
  match tickets with
  | [] => inr tt
  | item :: rest =>
      let ms := attrs_movie_session item in
      let key := (ms.1, attrs_row item, attrs_seat item) in
      if bool_decide (key ∈ seen) then
        inl (ValidationError (Message "Duplicate tickets in request."))
      else validate_tickets_loop ({[key]} ∪ seen) rest
  end.

Definition validate_tickets (tickets : list TicketAttrs) : Exception + list TicketAttrs :=
  match validate_tickets_loop ∅ tickets with
  | inl e => inl e
  | inr _ => inr tickets
  end.

(** [OrderCreateSerializer.is_valid]: the [tickets] field is validated item
    by item, then by [validate_tickets]. *)
Definition is_valid (st : Store) (data : list TicketData) : Exception + list TicketAttrs :=
  match tickets_run_validation st data with
  | inl e => inl e
  | inr value => validate_tickets value
  end.

(** ** The storage and the declarations of the models *)

(** The integers of the storage. An [F] expression is evaluated in SQL, on
    integers of a fixed width: [int_max] is the largest product of two
    integer columns (2^31 - 1 on PostgreSQL, 2^63 - 1 on SQLite and MySQL)
    and [bigint_max] the largest difference with a count (2^63 - 1 on the
    three). Past them a storage with [overflow_raises] (PostgreSQL, MySQL)
    fails the query; SQLite goes on with a rounded float, which is not an
    integer any more and is [None] here. *)
Record Database := mkDatabase {
  int_max : Z;
  bigint_max : Z;
  overflow_raises : bool }.

Definition sql_integer (max n : Z) : option Z :=
  if bool_decide (- max - 1 ≤ n ≤ max) then Some n else None.

(** Modelled from the spec: the tables keep standard referential
    integrity, so the [on_delete] rule of a foreign key, declared in
    cinema/models.py, either deletes the rows that hold the key of a
    deleted row or refuses the deletion while there are any. *)
Inductive OnDelete := CASCADE | PROTECT.

(** How a model serializer treats a field of the model: a field that is
    not editable is read only, an editable field with a default may be
    left out, an editable field without one is required. *)
Inductive Writable := ReadOnly | Optional | Required.

(** What cinema/models.py declares and the view sets act on: the validators
    the model serializers derive from the fields of [CinemaHall] and
    [MovieSession] (blank and over-long names, integer ranges, unique
    constraints; the key is that of the row being updated, [None] for a
    new row, and an empty list means that the data is valid), the
    [on_delete] rules of [MovieSession.movie], [MovieSession.cinema_hall]
    and [Ticket.movie_session], and how [Order.created_at] can be written. *)
Record ModelDeclarations := mkModels {
  hall_validators : Store → option Z → CinemaHall → list ErrorDetail;
  session_validators : Store → option Z → MovieSession → list ErrorDetail;
  session_movie_on_delete : OnDelete;
  session_hall_on_delete : OnDelete;
  ticket_session_on_delete : OnDelete;
  created_at_field : Writable }.

Section Storage.

(** The constraints the tables themselves declare (nullability, unique
    constraints, checks) live in cinema/models.py and the migrations; an
    insert that the storage refuses raises [IntegrityError]. They are left
    open here: everything below holds for whatever the storage checks. *)
Variable order_constraints : Store → Order → bool.
Variable ticket_constraints : Store → Ticket → bool.

(** The database the project is run on, and the models. *)
Variable db : Database.
Variable models : ModelDeclarations.

(** [Order.objects.create(user=user)]; [now] is the clock reading that
    fills [created_at]. *)
Definition Order_objects_create (user : RequestUser) (now : Z) : DB (Z * Order) :=
  λ st, match user with
        | AnonymousUser => raise ValueError st
        | User uid =>
            let o := mkOrder uid now in
            if order_constraints st o then
              let pk := next_pk (orders st) in
              (inr (pk, o), set_orders st (<[pk := o]> (orders st)))
            else raise IntegrityError st
        end.

(** [Ticket(order=order, **ticket)] *)
Definition Ticket_init (order : Z * Order) (ticket : TicketAttrs) : Ticket :=
  mkTicket (attrs_row ticket) (attrs_seat ticket)
           (attrs_movie_session ticket).1 order.1.

Definition Ticket_insert (t : Ticket) : DB unit :=
  λ st, if ticket_constraints st t then
          (inr tt, set_tickets st (<[next_pk (tickets st) := t]> (tickets st)))
        else raise IntegrityError st.

(** [Ticket.objects.bulk_create]: the rows go in one after the other, and a
    refused row stops the insertion with the earlier rows written. *)
Fixpoint Ticket_objects_bulk_create (objs : list Ticket) : DB unit :=
  match objs with
  | [] => ret tt
  | t :: objs' => do _ <~ Ticket_insert t; Ticket_objects_bulk_create objs'
  end.

(** [OrderCreateSerializer.create], under [@transaction.atomic]. *)
Definition create (user : RequestUser) (now : Z) (tickets_data : list TicketAttrs)
  : DB (Z * Order) :=
  atomic (
    do order <~ Order_objects_create user now;
    let tickets_to_create := (λ ticket, Ticket_init order ticket) <$> tickets_data in
    do _ <~ Ticket_objects_bulk_create tickets_to_create;
    ret order).

(** ** cinema/views.py *)

(** *** Representations the serializers send back *)

Record SessionShort := mkSessionShort {
  ss_id : Z;
  ss_show_time : Z;
  ss_movie_title : string;
  ss_cinema_hall_name : string;
  ss_cinema_hall_capacity : Z }.

Record TicketListData := mkTicketListData {
  tl_id : Z;
  tl_row : Z;
  tl_seat : Z;
  tl_movie_session : SessionShort }.

Record OrderListData := mkOrderListData {
  ol_id : Z;
  ol_tickets : list TicketListData;
  ol_created_at : Z }.

Record OrderPage := mkOrderPage {
  page_count : Z;
  page_next : option Z;
  page_previous : option Z;
  page_results : list OrderListData }.

Record SessionListData := mkSessionListData {
  sl_id : Z;
  sl_show_time : Z;
  sl_movie_title : string;
  sl_cinema_hall_name : string;
  sl_cinema_hall_capacity : Z;
  sl_tickets_available : option Z }.

Inductive Body :=
| OrderCreateBody (id : Z) (tickets : list TicketData) (created_at : Z)
| OrderPageBody (page : OrderPage)
| SessionListBody (sessions : list SessionListData)
| HallBody (id : Z) (hall : CinemaHall)
| SessionBody (id : Z) (session : MovieSession)
| OrderBody (order : OrderListData).

Inductive Response :=
| HTTP_200 (body : Body)
| HTTP_201 (body : Body)
| HTTP_204
| HTTP_400 (exc : Exception)
| HTTP_403
| HTTP_404
| HTTP_500 (exc : Exception).

(** *** MovieSessionViewSet *)

(** A row of [MovieSessionViewSet.queryset]: the session joined with its
    movie and hall ([select_related]) and the three annotations. The count
    is a count of rows; the other two are computed by the storage, and are
    [None] when they leave its integers. *)
Record AnnotatedSession := mkAnnotated {
  session : MovieSession;
  session_movie : Movie;
  session_hall : CinemaHall;
  tickets_sold : Z;
  hall_capacity : option Z;
  tickets_available : option Z }.

(** [Count("tickets", distinct=True)]: the tickets whose [movie_session]
    is the session; primary keys are distinct, so is every row counted. *)
Definition session_tickets (st : Store) (ms_id : Z) : gmap Z Ticket :=
  filter (λ kt, movie_session kt.2 = ms_id) (tickets st).

Definition annotate (st : Store) (ms_id : Z) (ms : MovieSession)
  : option AnnotatedSession :=
  m ← movies st !! movie ms;
  h ← cinema_halls st !! cinema_hall ms;
  let tickets_sold := qs_count (session_tickets st ms_id) in
  let hall_capacity := sql_integer (int_max db) (rows h * seats_in_row h) in
  let tickets_available :=
    capacity ← hall_capacity;
    sql_integer (bigint_max db) (capacity - tickets_sold) in
  Some (mkAnnotated ms m h tickets_sold hall_capacity tickets_available).

Definition MovieSessionViewSet_queryset (st : Store) : gmap Z AnnotatedSession :=
  map_imap (annotate st) (movie_sessions st).

(** [show_time__date]: [show_time] counts seconds, a date counts days. *)
Definition show_time_date (t : Z) : Z := t `div` 86400.

(** [MovieSessionViewSet.get_queryset]; the query parameters arrive parsed:
    [None] is an absent, empty or unparsable parameter. *)
Definition MovieSessionViewSet_get_queryset (date movie_param : option Z) (st : Store)
  : gmap Z AnnotatedSession :=
  let qs := MovieSessionViewSet_queryset st in
  let qs := match date with
            | Some date_value =>
                filter (λ kv, show_time_date (show_time (session kv.2)) = date_value) qs
            | None => qs
            end in
  let qs := match movie_param with
            | Some movie_id => filter (λ kv, movie (session kv.2) = movie_id) qs
            | None => qs
            end in
  qs.

(** [MovieSessionListSerializer] *)
Definition session_list_data (kv : Z * AnnotatedSession) : SessionListData :=
  mkSessionListData kv.1 (show_time (session kv.2)) (title (session_movie kv.2))
    (name (session_hall kv.2)) (capacity (session_hall kv.2))
    (tickets_available kv.2).

(** Running a query: where the storage raises on overflow, a selected row
    whose annotations left the integers fails the query. *)
Definition overflows (a : AnnotatedSession) : bool :=
  overflow_raises db && bool_decide (tickets_available a = None).

Definition fetch (qs : gmap Z AnnotatedSession) : Exception + list (Z * AnnotatedSession) :=
  let selected := map_to_list qs in
  if existsb (λ kv, overflows kv.2) selected then inl DataError else inr selected.

Definition MovieSessionViewSet_list (date movie_param : option Z) (st : Store)
  : Response * Store :=
  match fetch (MovieSessionViewSet_get_queryset date movie_param st) with
  | inl e => (HTTP_500 e, st)
  | inr selected => (HTTP_200 (SessionListBody (session_list_data <$> selected)), st)
  end.

(** [get_object] of the actions on one session; the request carries no
    query parameter, so [get_queryset] filters nothing. *)
Definition MovieSessionViewSet_get_object (pk : Z) (st : Store)
  : Response + AnnotatedSession :=
  match MovieSessionViewSet_get_queryset None None st !! pk with
  | None => inl HTTP_404
  | Some a => if overflows a then inl (HTTP_500 DataError) else inr a
  end.

(** The fields of [MovieSessionWriteSerializer]: [movie] and [cinema_hall]
    are primary key fields, and an unknown key is a validation error of
    the field (the message of the framework also quotes the key); the
    validators of the model run on data whose fields passed. *)
Definition MovieSessionWriteSerializer_errors (instance : option Z)
    (data : MovieSession) (st : Store) : list ErrorDetail :=
  let field_errors :=
    (if bool_decide (is_Some (movies st !! movie data)) then []
     else [FieldError "movie" "Invalid pk - object does not exist."]) ++
    (if bool_decide (is_Some (cinema_halls st !! cinema_hall data)) then []
     else [FieldError "cinema_hall" "Invalid pk - object does not exist."]) in
  match field_errors with
  | [] => session_validators models st instance data
  | _ => field_errors
  end.

(** The [create] and [update] actions: [show_time], [movie] and
    [cinema_hall] are the writable fields, and nothing compares the hall
    with the tickets the session has sold. *)
Definition MovieSessionViewSet_create (data : MovieSession) (st : Store)
  : Response * Store :=
  match MovieSessionWriteSerializer_errors None data st with
  | [] =>
      let pk := next_pk (movie_sessions st) in
      (HTTP_201 (SessionBody pk data),
       set_movie_sessions st (<[pk := data]> (movie_sessions st)))
  | errors => (HTTP_400 (FieldErrors errors), st)
  end.

Definition MovieSessionViewSet_update (pk : Z) (data : MovieSession) (st : Store)
  : Response * Store :=
  match MovieSessionViewSet_get_object pk st with
  | inl response => (response, st)
  | inr _ =>
      match MovieSessionWriteSerializer_errors (Some pk) data st with
      | [] =>
          (HTTP_200 (SessionBody pk data),
           set_movie_sessions st (<[pk := data]> (movie_sessions st)))
      | errors => (HTTP_400 (FieldErrors errors), st)
      end
  end.

(** *** Deleting rows *)

(** [Model.delete]: the collector gathers the rows that hold the key of a
    row to delete, and deletes them all in one transaction, unless a
    protecting foreign key has a row among them. *)
Definition protects {A} (rule : OnDelete) (holders : gmap Z A) : bool :=
  match rule with
  | PROTECT => qs_exists holders
  | CASCADE => false
  end.

(** The store without the sessions [gone] and the tickets for them. *)
Definition without_sessions (gone : gmap Z MovieSession) (st : Store) : Store :=
  mkStore (movies st) (cinema_halls st)
          (filter (λ ks, gone !! ks.1 = None) (movie_sessions st))
          (orders st)
          (filter (λ kt, gone !! movie_session kt.2 = None) (tickets st)).

(** Deleting the sessions [gone], under the rule of [Ticket.movie_session]. *)
Definition delete_sessions (gone : gmap Z MovieSession) (st : Store)
  : Exception + Store :=
  let holders := filter (λ kt, is_Some (gone !! movie_session kt.2)) (tickets st) in
  if protects (ticket_session_on_delete models) holders then inl ProtectedError
  else inr (without_sessions gone st).

(** Deleting what hangs on a movie or a hall: its sessions [holders], under
    the rule of the foreign key they hold. *)
Definition delete_holders (rule : OnDelete) (holders : gmap Z MovieSession)
    (st : Store) : Exception + Store :=
  if protects rule holders then inl ProtectedError else delete_sessions holders st.

(** The [destroy] action of [MovieSessionViewSet]. *)
Definition MovieSessionViewSet_destroy (pk : Z) (st : Store) : Response * Store :=
  match MovieSessionViewSet_get_object pk st with
  | inl response => (response, st)
  | inr a =>
      match delete_sessions {[pk := session a]} st with
      | inl e => (HTTP_500 e, st)
      | inr st' => (HTTP_204, st')
      end
  end.

(** The [destroy] action of [MovieViewSet]; the request carries no query
    parameter, so [get_queryset] keeps every movie. *)
Definition MovieViewSet_destroy (pk : Z) (st : Store) : Response * Store :=
  match movies st !! pk with
  | None => (HTTP_404, st)
  | Some _ =>
      match delete_holders (session_movie_on_delete models)
              (filter (λ ks, movie ks.2 = pk) (movie_sessions st)) st with
      | inl e => (HTTP_500 e, st)
      | inr st' => (HTTP_204, set_movies st' (delete pk (movies st')))
      end
  end.

(** *** CinemaHallViewSet *)

(** The actions of the model view set with [CinemaHallSerializer]: [name],
    [rows] and [seats_in_row] are the writable fields, and the serializer
    in this file adds no check of its own to the validators of the model
    fields. [create] runs [is_valid(raise_exception=True)], then [save]. *)
Definition CinemaHallViewSet_create (data : CinemaHall) (st : Store)
  : Response * Store :=
  match hall_validators models st None data with
  | [] =>
      let pk := next_pk (cinema_halls st) in
      (HTTP_201 (HallBody pk data),
       set_cinema_halls st (<[pk := data]> (cinema_halls st)))
  | errors => (HTTP_400 (FieldErrors errors), st)
  end.

(** [update]: [get_object], then [is_valid(raise_exception=True)], then
    [save]. *)
Definition CinemaHallViewSet_update (pk : Z) (data : CinemaHall) (st : Store)
  : Response * Store :=
  match cinema_halls st !! pk with
  | None => (HTTP_404, st)
  | Some _ =>
      match hall_validators models st (Some pk) data with
      | [] =>
          (HTTP_200 (HallBody pk data),
           set_cinema_halls st (<[pk := data]> (cinema_halls st)))
      | errors => (HTTP_400 (FieldErrors errors), st)
      end
  end.

Definition CinemaHallViewSet_destroy (pk : Z) (st : Store) : Response * Store :=
  match cinema_halls st !! pk with
  | None => (HTTP_404, st)
  | Some _ =>
      match delete_holders (session_hall_on_delete models)
              (filter (λ ks, cinema_hall ks.2 = pk) (movie_sessions st)) st with
      | inl e => (HTTP_500 e, st)
      | inr st' => (HTTP_204, set_cinema_halls st' (delete pk (cinema_halls st')))
      end
  end.

(** *** OrderViewSet *)

Definition OrderPagination_page_size : Z := 1.

(** [PageNumberPagination] over Django's [Paginator]: page [number] of
    [l], with the numbers of the next and the previous page; an empty list
    still has its page 1. *)
Definition paginate {A} (page_size number : Z) (l : list A)
  : option (Z * option Z * option Z * list A) :=
  let count := Z.of_nat (length l) in
  let num_pages := (Z.max 1 count + page_size - 1) `div` page_size in
  if bool_decide (number < 1 ∨ number > num_pages) then None
  else
    let bottom := (number - 1) * page_size in
    let top := Z.min (bottom + page_size) count in
    Some (count,
          (if bool_decide (number < num_pages) then Some (number + 1) else None),
          (if bool_decide (number > 1) then Some (number - 1) else None),
          take (Z.to_nat (top - bottom)) (drop (Z.to_nat bottom) l)).

(** [order_by("-created_at")] *)
Definition newest_first (a b : Z * Order) : Prop := created_at b.2 ≤ created_at a.2.

#[local] Instance newest_first_dec a b : Decision (newest_first a b).
Proof. unfold newest_first. apply _. Defined.

(** [OrderViewSet.get_queryset]: the orders of the requesting user, newest
    first. *)
Definition OrderViewSet_get_queryset (uid : Z) (st : Store) : list (Z * Order) :=
  merge_sort newest_first
    (map_to_list (filter (λ ko, user ko.2 = uid) (orders st))).

Definition order_tickets (st : Store) (order_id : Z) : gmap Z Ticket :=
  filter (λ kt, order kt.2 = order_id) (tickets st).

(** [TicketMovieSessionShortSerializer] *)
Definition session_short (st : Store) (ms_id : Z) : option SessionShort :=
  ms ← movie_sessions st !! ms_id;
  m ← movies st !! movie ms;
  h ← cinema_halls st !! cinema_hall ms;
  Some (mkSessionShort ms_id (show_time ms) (title m) (name h) (capacity h)).

(** [TicketListSerializer] *)
Definition ticket_list_data (st : Store) (kt : Z * Ticket) : option TicketListData :=
  ss ← session_short st (movie_session kt.2);
  Some (mkTicketListData kt.1 (row kt.2) (seat kt.2) ss).

(** [OrderListSerializer] *)
Definition order_list_data (st : Store) (ko : Z * Order) : option OrderListData :=
  ts ← mapM (ticket_list_data st) (map_to_list (order_tickets st ko.1));
  Some (mkOrderListData ko.1 ts (created_at ko.2)).

(** The [list] action; [IsAuthenticated] turns an anonymous request away. *)
Definition OrderViewSet_list (user : RequestUser) (page : Z) (st : Store)
  : Response * Store :=
  match user with
  | AnonymousUser => (HTTP_403, st)
  | User uid =>
      match paginate OrderPagination_page_size page (OrderViewSet_get_queryset uid st) with
      | None => (HTTP_404, st)
      | Some (count, next, previous, results) =>
          match mapM (order_list_data st) results with
          | None => (HTTP_500 DoesNotExist, st)
          | Some data =>
              (HTTP_200 (OrderPageBody (mkOrderPage count next previous data)), st)
          end
      end
  end.

(** [OrderCreateSerializer] showing the order it created. *)
Definition order_create_data (st : Store) (order : Z * Order) : Body :=
  OrderCreateBody order.1
    ((λ kt, mkData (row kt.2) (seat kt.2) (movie_session kt.2))
       <$> map_to_list (order_tickets st order.1))
    (created_at order.2).

(** The [create] action: [is_valid(raise_exception=True)], then [save],
    which calls [create]. A validation error is answered with status 400
    before anything is written. *)
Definition OrderViewSet_create (user : RequestUser) (now : Z) (data : list TicketData)
    (st : Store) : Response * Store :=
  match user with
  | AnonymousUser => (HTTP_403, st)
  | User _ =>
      match is_valid st data with
      | inl (ValidationError d) => (HTTP_400 (ValidationError d), st)
      | inl (ItemErrors ds) => (HTTP_400 (ItemErrors ds), st)
      | inl e => (HTTP_500 e, st)
      | inr validated_data =>
          match create user now validated_data st with
          | (inl e, st') => (HTTP_500 e, st')
          | (inr order, st') => (HTTP_201 (order_create_data st' order), st')
          end
      end
  end.

(** Modelled from the spec: the [on_delete] rule of [Ticket.order], declared
    in cinema/models.py; an Order owns its Tickets, so deleting the order
    deletes them. *)
Definition Order_delete (pk : Z) (st : Store) : Store :=
  mkStore (movies st) (cinema_halls st) (movie_sessions st)
          (delete pk (orders st))
          (filter (λ kt, order kt.2 ≠ pk) (tickets st)).

(** The [destroy] action that [viewsets.ModelViewSet] gives the view set;
    [get_object] searches [get_queryset], the orders of the user. *)
Definition OrderViewSet_destroy (request_user : RequestUser) (pk : Z) (st : Store)
  : Response * Store :=
  match request_user with
  | AnonymousUser => (HTTP_403, st)
  | User uid =>
      match filter (λ ko, user ko.2 = uid) (orders st) !! pk with
      | None => (HTTP_404, st)
      | Some _ => (HTTP_204, Order_delete pk st)
      end
  end.

(** The [update] and [partial_update] actions, with [OrderListSerializer]:
    [id] and [tickets] are read only, [created_at] is written as the model
    field allows, and [data] is the [created_at] of the request body, if it
    has one. [save] writes the row before the answer is built. *)
Definition OrderViewSet_update (partial : bool) (request_user : RequestUser)
    (pk : Z) (data : option Z) (st : Store) : Response * Store :=
  match request_user with
  | AnonymousUser => (HTTP_403, st)
  | User uid =>
      match filter (λ ko, user ko.2 = uid) (orders st) !! pk with
      | None => (HTTP_404, st)
      | Some instance =>
          let save (o : Order) : Response * Store :=
            let st' := set_orders st (<[pk := o]> (orders st)) in
            match order_list_data st' (pk, o) with
            | None => (HTTP_500 DoesNotExist, st')
            | Some d => (HTTP_200 (OrderBody d), st')
            end in
          match created_at_field models, data with
          | ReadOnly, _ => save instance
          | _, Some value => save (mkOrder (user instance) value)
          | Required, None =>
              if partial then save instance
              else (HTTP_400 (FieldErrors
                      [FieldError "created_at" "This field is required."]), st)
          | Optional, None => save instance
          end
      end
  end.

(** ** Requests *)

(** The requests that write a table of the store or answer from the
    annotations and the orders. A [partial_update] of a hall or a session
    is the [update] with the row it writes. The actions left out read
    only ([retrieve] and the other lists) or write nothing but the rows of
    movies, genres and actors. *)
Inductive Request :=
| SessionList (date movie_param : option Z)
| HallUpdate (pk : Z) (data : CinemaHall)
| OrderList (user : RequestUser) (page : Z)
| OrderCreate (user : RequestUser) (now : Z) (data : list TicketData)
| OrderDestroy (user : RequestUser) (pk : Z)
| OrderUpdate (partial : bool) (user : RequestUser) (pk : Z) (data : option Z)
| HallCreate (data : CinemaHall)
| HallDestroy (pk : Z)
| SessionCreate (data : MovieSession)
| SessionUpdate (pk : Z) (data : MovieSession)
| SessionDestroy (pk : Z)
| MovieDestroy (pk : Z).

Definition handle (req : Request) (st : Store) : Response * Store :=
  match req with
  | SessionList date movie_param => MovieSessionViewSet_list date movie_param st
  | HallUpdate pk data => CinemaHallViewSet_update pk data st
  | OrderList user page => OrderViewSet_list user page st
  | OrderCreate user now data => OrderViewSet_create user now data st
  | OrderDestroy user pk => OrderViewSet_destroy user pk st
  | OrderUpdate partial user pk data => OrderViewSet_update partial user pk data st
  | HallCreate data => CinemaHallViewSet_create data st
  | HallDestroy pk => CinemaHallViewSet_destroy pk st
  | SessionCreate data => MovieSessionViewSet_create data st
  | SessionUpdate pk data => MovieSessionViewSet_update pk data st
  | SessionDestroy pk => MovieSessionViewSet_destroy pk st
  | MovieDestroy pk => MovieViewSet_destroy pk st
  end.

Definition run (reqs : list Request) (st : Store) : Store :=
  foldl (λ st req, (handle req st).2) st reqs.

End Storage.

(** * Vocabulary of the properties *)

(** Referential integrity of [MovieSession.cinema_hall]. *)
Definition fk_sessions (st : Store) : Prop :=
  map_Forall (λ _ ms, is_Some (cinema_halls st !! cinema_hall ms)) (movie_sessions st).

(** Referential integrity of [Ticket.order]. *)
Definition fk_tickets (st : Store) : Prop :=
  map_Forall (λ _ t, is_Some (orders st !! order t)) (tickets st).

(** The exceptions the framework answers with status 400. *)
Definition is_validation_error (e : Exception) : Prop :=
  match e with
  | ValidationError _ | ItemErrors _ => True
  | _ => False
  end.

(** The key [validate_tickets] builds for an item. *)
Definition ticket_key (item : TicketAttrs) : Z * Z * Z :=
  ((attrs_movie_session item).1, attrs_row item, attrs_seat item).

(** Whether a seat of a session is sold. *)
Definition taken (st : Store) (ms_id r s : Z) : Prop :=
  ∃ k t, tickets st !! k = Some t ∧ movie_session t = ms_id ∧ row t = r ∧ seat t = s.

(** The key of a submitted item, as [validate_tickets] sees it. *)
Definition data_key (d : TicketData) : Z * Z * Z :=
  (data_movie_session d, data_row d, data_seat d).

(** The table after the rows [rs] went in one by one. *)
Fixpoint insert_rows {A} (rs : list A) (m : gmap Z A) : gmap Z A :=
  match rs with
  | [] => m
  | r :: rs' => insert_rows rs' (<[next_pk m := r]> m)
  end.

(** No two Tickets of one session share row and seat. *)
Definition seat_unique (st : Store) : Prop :=
  ∀ k1 k2 t1 t2,
    tickets st !! k1 = Some t1 → tickets st !! k2 = Some t2 →
    movie_session t1 = movie_session t2 → row t1 = row t2 → seat t1 = seat t2 →
    k1 = k2.

(** Every Ticket sits inside the hall of its session. *)
Definition in_hall (st : Store) : Prop :=
  ∀ k t, tickets st !! k = Some t →
    ∃ ms h, movie_sessions st !! movie_session t = Some ms ∧
      cinema_halls st !! cinema_hall ms = Some h ∧
      1 ≤ row t ≤ rows h ∧ 1 ≤ seat t ≤ seats_in_row h.

(** What the list answer for user [uid] is computed from. *)
Definition user_orders (uid : Z) (st : Store) : gmap Z Order :=
  filter (λ ko, user ko.2 = uid) (orders st).

Definition user_tickets (uid : Z) (st : Store) : gmap Z Ticket :=
  filter (λ kt, user <$> orders st !! order kt.2 = Some uid) (tickets st).

(** The order requests made by user [v]. *)
Definition order_request_of (v : Z) (req : Request) : Prop :=
  match req with
  | OrderList (User v') _ | OrderCreate (User v') _ _ | OrderDestroy (User v') _
  | OrderUpdate _ (User v') _ _ =>
      v' = v
  | _ => False
  end.

(** A request that takes rows or seats away from under a session: a hall
    update that makes the hall smaller, or a session update that moves the
    session to a hall with fewer rows or fewer seats in a row. *)
Definition shrinks_hall (req : Request) (st : Store) : Prop :=
  match req with
  | HallUpdate pk data =>
      ∃ h, cinema_halls st !! pk = Some h ∧
        (rows data < rows h ∨ seats_in_row data < seats_in_row h)
  | SessionUpdate pk data =>
      ∃ ms h h', movie_sessions st !! pk = Some ms ∧
        cinema_halls st !! cinema_hall ms = Some h ∧
        cinema_halls st !! cinema_hall data = Some h' ∧
        (rows h' < rows h ∨ seats_in_row h' < seats_in_row h)
  | _ => False
  end.

Section Reachability.

Variable order_constraints : Store → Order → bool.
Variable ticket_constraints : Store → Ticket → bool.
Variable db : Database.
Variable models : ModelDeclarations.

#[local] Abbreviation handle := (handle order_constraints ticket_constraints db models).

(** The stores the requests lead to from [st0], and those reached without
    shrinking the hall of a session. *)
Inductive reachable (st0 : Store) : Store → Prop :=
| reachable_init : reachable st0 st0
| reachable_step (st : Store) (req : Request) :
    reachable st0 st → reachable st0 (handle req st).2.

Inductive reachable_keeping_halls (st0 : Store) : Store → Prop :=
| keeping_init : reachable_keeping_halls st0 st0
| keeping_step (st : Store) (req : Request) :
    reachable_keeping_halls st0 st → ¬ shrinks_hall req st →
    reachable_keeping_halls st0 (handle req st).2.

End Reachability.

(** ** Sample data *)

(** A storage without constraints of its own. *)
Definition no_constraints {A : Type} (st : Store) (x : A) : bool := true.

(** SQLite: integers of 64 bits, and a float past them. *)
Definition sqlite : Database := mkDatabase (2 ^ 63 - 1) (2 ^ 63 - 1) false.

(** PostgreSQL: integer columns of 32 bits, counts of 64, and an error past
    them. *)
Definition postgresql : Database := mkDatabase (2 ^ 31 - 1) (2 ^ 63 - 1) true.

(** Models whose halls need a name, whose foreign keys cascade and whose
    [created_at] is stamped once. *)
Definition name_required (st : Store) (instance : option Z) (data : CinemaHall)
  : list ErrorDetail :=
  if bool_decide (name data = EmptyString)
  then [FieldError "name" "This field may not be blank."] else [].

Definition demo_models : ModelDeclarations :=
  mkModels name_required (λ _ _ _, []) CASCADE CASCADE CASCADE ReadOnly.

(** The same with a [created_at] that a request may write. *)
Definition editable_models : ModelDeclarations :=
  mkModels name_required (λ _ _ _, []) CASCADE CASCADE CASCADE Required.

(** One movie, shown once in a hall of two rows of one seat; nothing sold. *)
Definition demo_store : Store :=
  mkStore {[1 := mkMovie "Heat" "Crime drama" 170]}
          {[1 := mkCinemaHall "Blue" 2 1]}
          {[1 := mkMovieSession 86400 1 1]}
          ∅ ∅.

(** The same after user 7 bought both seats at time 5. *)
Definition sold_out_store : Store :=
  mkStore (movies demo_store) (cinema_halls demo_store) (movie_sessions demo_store)
          {[1 := mkOrder 7 5]}
          {[1 := mkTicket 1 1 1 1; 2 := mkTicket 2 1 1 1]}.

(** The same with a second, smaller hall. *)
Definition two_halls_store : Store :=
  set_cinema_halls demo_store
    {[1 := mkCinemaHall "Blue" 2 1; 2 := mkCinemaHall "Red" 1 1]}.

(** A session in a hall of 3037000500 rows of 3037000500 seats. *)
Definition vast_hall_store : Store :=
  set_cinema_halls demo_store {[1 := mkCinemaHall "Vast" 3037000500 3037000500]}.

(** * Text, query parameters and the rest of the views *)

(** ** Python strings *)

(** A [str] is modelled by a [string] whose characters are the code points
    below 256. [isspace] is the white space that [str.strip()] removes,
    [isdigit] the characters [str.isdigit()] accepts: the decimal digits
    and the superscripts two, three and one. *)
Definition isspace (c : ascii) : bool :=
  let n := N_of_ascii c in
  ((9 <=? n) && (n <=? 13) || (28 <=? n) && (n <=? 32)
   || (n =? 133) || (n =? 160))%N.

Definition isdecimal (c : ascii) : bool :=
  let n := N_of_ascii c in ((48 <=? n) && (n <=? 57))%N.

Definition isdigit (c : ascii) : bool :=
  let n := N_of_ascii c in
  (isdecimal c || (n =? 178) || (n =? 179) || (n =? 185))%N.

Fixpoint lstrip (s : string) : string :=
  match s with
  | EmptyString => EmptyString
  | String c s' => if isspace c then lstrip s' else s
  end.

Fixpoint rstrip (s : string) : string :=
  match s with
  | EmptyString => EmptyString
  | String c s' =>
      match rstrip s' with
      | EmptyString => if isspace c then EmptyString else String c EmptyString
      | r => String c r
      end
  end.

(** [s.strip()] *)
Definition strip (s : string) : string := rstrip (lstrip s).

(** [s.isdigit()] *)
Definition str_isdigit (s : string) : bool :=
  match s with
  | EmptyString => false
  | _ => forallb isdigit (String.list_ascii_of_string s)
  end.

(** [s.split(",")] *)
Fixpoint split_comma (s : string) : list string :=
  match s with
  | EmptyString => [EmptyString]
  | String c s' =>
      match split_comma s' with
      | part :: parts =>
          if Ascii.eqb c ","%char then EmptyString :: part :: parts
          else String c part :: parts
      | [] => []
      end
  end.

(** [int(s)] for a string that [isdigit] accepted: the decimal value, or
    [None] for the [ValueError] that a superscript digit causes. *)
Definition int_of_digits (s : string) : option Z :=
  (λ d, Z.of_N (N.of_uint d)) <$> DecimalString.NilZero.uint_of_string s.

(** ** cinema/views.py: query parameters *)

(** The loop of [_parse_int_list] over the parts. *)
Fixpoint parse_parts (parts : list string) : option (list Z) :=
  match parts with
  | [] => Some []
  | part :: parts' =>
      let part := strip part in
      if str_isdigit part then
        n ← int_of_digits part;
        result ← parse_parts parts';
        Some (n :: result)
      else parse_parts parts'
  end.

(** [_parse_int_list]; [None] is the [ValueError] of [int]. *)
Definition _parse_int_list (value : string) : option (list Z) :=
  parse_parts (split_comma value).

(** [if movie and movie.isdigit(): ... int(movie)] of
    [MovieSessionViewSet.get_queryset], on the raw parameter. *)
Definition parse_movie_param (movie : option string) : Exception + option Z :=
  match movie with
  | Some m =>
      if str_isdigit m then
        match int_of_digits m with
        | Some movie_id => inr (Some movie_id)
        | None => inl ValueError
        end
      else inr None
  | None => inr None
  end.

(** [MovieSessionViewSet.get_queryset] with the [movie] parameter as the
    request carries it. *)
Definition MovieSessionViewSet_get_queryset_raw (db : Database) (date : option Z)
    (movie : option string) (st : Store) : Exception + gmap Z AnnotatedSession :=
  match parse_movie_param movie with
  | inl e => inl e
  | inr movie_param => inr (MovieSessionViewSet_get_queryset db date movie_param st)
  end.

(** ** cinema/views.py: MovieViewSet *)

(** Modelled from the spec: the many-to-many relations of Movie with Genre
    and Actor, declared in cinema/models.py; each is the set of the
    (movie, genre) or (movie, actor) key pairs of its link table. *)
Record MovieLinks := mkMovieLinks {
  movie_genres : gset (Z * Z);
  movie_actors : gset (Z * Z) }.

(** [qs.filter(genres__id__in=ids)]: the join with the link table gives a
    row of the movie for every link to one of [ids]. *)
Definition filter_linked (links : gset (Z * Z)) (ids : list Z)
    (qs : list (Z * Movie)) : list (Z * Movie) :=
  r ← qs;
  l ← elements links;
  if decide (l.1 = r.1 ∧ l.2 ∈ ids) then [r] else [].

Section MovieList.

(** [title__icontains]: how the storage compares letters without regard to
    case depends on the database; [icontains text part] is its answer. *)
Variable icontains : string → string → bool.

(** [MovieViewSet.get_queryset]; an absent parameter is [None], and
    [inl ValueError] is the exception of [_parse_int_list]. *)
Definition MovieViewSet_get_queryset (title_param genres actors : option string)
    (st : Store) (links : MovieLinks) : Exception + list (Z * Movie) :=
  let qs := map_to_list (movies st) in
  let qs := match title_param with
            | Some (String c t) => filter (λ r, icontains (title r.2) (String c t)) qs
            | _ => qs
            end in
  match (match genres with
         | Some (String c g) =>
             match _parse_int_list (String c g) with
             | None => inl ValueError
             | Some [] => inr qs
             | Some genre_ids => inr (filter_linked (movie_genres links) genre_ids qs)
             end
         | _ => inr qs
         end) with
  | inl e => inl e
  | inr qs =>
      match (match actors with
             | Some (String c a) =>
                 match _parse_int_list (String c a) with
                 | None => inl ValueError
                 | Some [] => inr qs
                 | Some actor_ids =>
                     inr (filter_linked (movie_actors links) actor_ids qs)
                 end
             | _ => inr qs
             end) with
      | inl e => inl e
      | inr qs => inr (remove_dups qs)
      end
  end.

End MovieList.

(** The keys a [genres] or [actors] parameter asks for: [Some []] for an
    absent or empty parameter, which the view does not parse, and [None]
    when parsing raises. *)
Definition requested_ids (param : option string) : option (list Z) :=
  match param with
  | Some (String c s) => _parse_int_list (String c s)
  | _ => Some []
  end.

(** Whether a title passes the [title] parameter. *)
Definition title_matches (icontains : string → string → bool)
    (title_param : option string) (m : Movie) : Prop :=
  match title_param with
  | Some (String c t) => icontains (title m) (String c t) = true
  | _ => True
  end.

(** Whether a movie is linked to one of the keys asked for; no key asked
    for leaves every movie in. *)
Definition linked_to (links : gset (Z * Z)) (ids : list Z) (pk : Z) : Prop :=
  ids = [] ∨ ∃ x, x ∈ ids ∧ (pk, x) ∈ links.

(** ** cinema/serializers.py: names and taken places *)

Record Actor := mkActor {
  first_name : option string;
  last_name : option string }.

(** [x or ""] *)
Definition or_empty (x : option string) : string :=
  match x with
  | Some (String c s) => String c s
  | _ => EmptyString
  end.

(** [ActorSerializer.get_full_name] *)
Definition get_full_name (obj : Actor) : string :=
  let first := strip (or_empty (first_name obj)) in
  let last := strip (or_empty (last_name obj)) in
  strip (first +:+ " " +:+ last).

(** [MovieListSerializer.get_actors], on the actors of the movie. *)
Fixpoint get_actors_loop (qs : list Actor) (result : list string) : list string :=
  match qs with
  | [] => result
  | actor :: qs' =>
      let first := strip (or_empty (first_name actor)) in
      let last := strip (or_empty (last_name actor)) in
      get_actors_loop qs' (result ++ [strip (first +:+ " " +:+ last)])
  end.

Definition get_actors (qs : list Actor) : list string := get_actors_loop qs [].

(** [order_by("row", "seat")] *)
Definition row_seat_le (a b : Z * Z) : Prop := a.1 < b.1 ∨ (a.1 = b.1 ∧ a.2 ≤ b.2).

#[local] Instance row_seat_le_dec a b : Decision (row_seat_le a b).
Proof. unfold row_seat_le. apply _. Defined.

(** [MovieSessionDetailSerializer.get_taken_places]; [obj] is the key of
    the session. *)
Definition get_taken_places (st : Store) (obj : Z) : list (Z * Z) :=
  merge_sort row_seat_le
    ((λ kt, (row kt.2, seat kt.2)) <$> map_to_list (session_tickets st obj)).

(** ** More sample data *)

(** The decimal text of a number, as a client writes a key. *)
Definition decimal (n : N) : string :=
  DecimalString.NilZero.string_of_uint (N.to_uint n).

(** [",".join(parts)] *)
Definition join_comma (parts : list string) : string := String.concat "," parts.

(** Two movies; the first has genres 1 and 2 and actors 5 and 6, the second
    genre 2 and no actor. *)
Definition demo_movies : Store :=
  mkStore {[1 := mkMovie "Heat" "Crime drama" 170;
            2 := mkMovie "Alien" "Science fiction" 117]}
          ∅ ∅ ∅ ∅.

Definition demo_links : MovieLinks :=
  mkMovieLinks {[(1, 1); (1, 2); (2, 2)]} {[(1, 5); (1, 6)]}.

(** A storage that refuses every ticket of row 2. *)
Definition refuse_row_two (st : Store) (t : Ticket) : bool := negb (row t =? 2).

(** A comparison of titles that looks for the part at the start only. *)
Definition starts_with (text part : string) : bool := String.prefix part text.

(** The text of a superscript two after a key. *)
Definition superscript_text : string :=
  "1," +:+ String (ascii_of_N 178) EmptyString.

(** * Properties *)

(** ** Primary keys and inserts *)

Lemma foldr_max_ge (l : list Z) (k : Z) : k ∈ l → k ≤ foldr Z.max 0 l.
Proof.
  induction l as [|x l IH]; intros Hk.
  - by apply not_elem_of_nil in Hk.
  - apply elem_of_cons in Hk as [->|Hk]; simpl; [lia|].
    specialize (IH Hk). lia.
Qed.

Lemma next_pk_fresh {A} (m : gmap Z A) : m !! next_pk m = None.
Proof.
  destruct (m !! next_pk m) as [x|] eqn:E; [|done].
  apply elem_of_map_to_list in E.
  assert (next_pk m ∈ (map_to_list m).*1) as Hin.
  { apply list_elem_of_fmap. by exists (next_pk m, x). }
  apply foldr_max_ge in Hin. unfold next_pk in Hin. lia.
Qed.

Lemma insert_rows_spec {A} (rs : list A) (m : gmap Z A) :
  ∃ new : list (Z * A),
    new.*2 = rs ∧ NoDup new.*1 ∧ (∀ k, k ∈ new.*1 → m !! k = None) ∧
    insert_rows rs m = list_to_map new ∪ m.
Proof.
  revert m. induction rs as [|r rs IH]; intros m.
  - exists []. split_and!; [done|constructor|by intros k ?%not_elem_of_nil|].
    simpl. by rewrite (left_id_L ∅ (∪)).
  - destruct (IH (<[next_pk m := r]> m)) as (new & Hrs & Hnd & Hfresh & Heq).
    assert (next_pk m ∉ new.*1) as Hk.
    { intros Hin. apply Hfresh in Hin. by rewrite lookup_insert_eq in Hin. }
    exists ((next_pk m, r) :: new). split_and!.
    + rewrite fmap_cons. by f_equal.
    + rewrite fmap_cons. by constructor.
    + rewrite fmap_cons. intros k [->|Hin]%elem_of_cons; [apply next_pk_fresh|].
      apply Hfresh in Hin. apply lookup_insert_None in Hin. tauto.
    + cbn [insert_rows]. rewrite Heq. rewrite list_to_map_cons.
      rewrite <-insert_union_l, <-insert_union_r; [done|].
      by apply not_elem_of_list_to_map_1.
Qed.

(** ** Validation *)

Lemma qs_exists_tickets_at (st : Store) (ms_id r s : Z) :
  qs_exists (tickets_at st ms_id r s) = true ↔ taken st ms_id r s.
Proof.
  unfold qs_exists, tickets_at, taken. rewrite bool_decide_eq_true. split.
  - intros (k & t & Hkt)%map_choose.
    apply map_lookup_filter_Some in Hkt as [Hk Ht]. simpl in Ht. naive_solver.
  - intros (k & t & Hk & Ht) Hempty.
    eapply (map_filter_empty_not_lookup _ _ k t); [exact Hempty| |exact Hk].
    simpl. tauto.
Qed.

(** An item passes exactly when its session exists, the seat lies in the
    hall of the session and nobody holds it. *)
Lemma run_child_validation_inr (st : Store) (d : TicketData) (a : TicketAttrs) :
  run_child_validation st d = inr a ↔
  ∃ ms h, movie_sessions st !! data_movie_session d = Some ms ∧
    cinema_halls st !! cinema_hall ms = Some h ∧
    a = mkAttrs (data_row d) (data_seat d) (data_movie_session d, ms) ∧
    1 ≤ data_row d ≤ rows h ∧ 1 ≤ data_seat d ≤ seats_in_row h ∧
    ¬ taken st (data_movie_session d) (data_row d) (data_seat d).
Proof.
  unfold run_child_validation, to_internal_value, validate.
  destruct (movie_sessions st !! data_movie_session d) as [ms|] eqn:Hms; simpl;
    [|split; [done|naive_solver]].
  destruct (cinema_halls st !! cinema_hall ms) as [h|] eqn:Hh.
  2: { split; [done|]. intros (? & ? & ? & ? & ?). simplify_eq. }
  case_bool_decide as Hrow.
  { split; [done|]. intros (? & ? & ? & ? & ?). simplify_eq. lia. }
  case_bool_decide as Hseat.
  { split; [done|]. intros (? & ? & ? & ? & ?). simplify_eq. lia. }
  destruct (qs_exists _) eqn:Ht.
  - apply qs_exists_tickets_at in Ht. split; [done|].
    intros (? & ? & ? & ? & ?). simplify_eq. tauto.
  - split.
    + intros [= <-]. exists ms, h. split_and!; try done; try lia.
      rewrite <-qs_exists_tickets_at. by rewrite Ht.
    + intros (? & ? & ? & ? & ? & ?). by simplify_eq.
Qed.

(** With the halls of all sessions in place, an item is refused with a
    validation error only, and its detail is not the empty one. *)
Lemma run_child_validation_inl (st : Store) (d : TicketData) (e : Exception) :
  fk_sessions st → run_child_validation st d = inl e →
  ∃ detail, e = ValidationError detail ∧ detail ≠ NoErrors.
Proof.
  intros Hfk. unfold run_child_validation, to_internal_value, validate.
  destruct (movie_sessions st !! data_movie_session d) as [ms|] eqn:Hms; simpl.
  - destruct (Hfk _ _ Hms) as [h ->].
    case_bool_decide; [intros [= <-]; by eexists|].
    case_bool_decide; [intros [= <-]; by eexists|].
    destruct (qs_exists _); [|done]. intros [= <-]; by eexists.
  - intros [= <-]; by eexists.
Qed.

Lemma run_child_validation_inl_ne (st : Store) (d : TicketData) :
  run_child_validation st d ≠ inl (ValidationError NoErrors).
Proof.
  unfold run_child_validation, to_internal_value, validate.
  destruct (movie_sessions st !! data_movie_session d) as [ms|]; simpl; [|done].
  destruct (cinema_halls st !! cinema_hall ms) as [h|]; [|done].
  case_bool_decide; [done|]. case_bool_decide; [done|].
  by destruct (qs_exists _).
Qed.

Lemma validate_items_spec (st : Store) (data : list TicketData) :
  fk_sessions st →
  ∃ ret errors, validate_items st data = inr (ret, errors) ∧
    (any_errors errors = false →
       Forall2 (λ d a, run_child_validation st d = inr a) data ret) ∧
    (∀ d e, d ∈ data → run_child_validation st d = inl e →
       any_errors errors = true).
Proof.
  intros Hfk. induction data as [|d data (ret & errors & IH & Hok & Hbad)].
  - exists [], []. split_and!; [done|by constructor|].
    by intros d e ?%not_elem_of_nil.
  - simpl. rewrite IH.
    destruct (run_child_validation st d) as [e|a] eqn:Hd.
    + destruct (run_child_validation_inl _ _ _ Hfk Hd) as (detail & -> & Hne).
      exists ret, (detail :: errors). split_and!; [done| |].
      * simpl. by destruct detail.
      * intros; simpl. by destruct detail.
    + exists (a :: ret), (NoErrors :: errors). split_and!; [done| |].
      * simpl. intros Hno. constructor; auto.
      * intros d' e [->|Hin]%elem_of_cons Hd'; [congruence|].
        simpl. eauto.
Qed.

Lemma validate_tickets_loop_inr (seen : gset (Z * Z * Z)) (items : list TicketAttrs) :
  validate_tickets_loop seen items = inr tt ↔
  NoDup (ticket_key <$> items) ∧ ∀ k, k ∈ ticket_key <$> items → k ∉ seen.
Proof.
  revert seen. induction items as [|item items IH]; intros seen.
  - split; [|done]. intros _. split; [constructor|].
    by intros k ?%not_elem_of_nil.
  - cbn [validate_tickets_loop]. fold (ticket_key item). rewrite fmap_cons.
    case_bool_decide as Hseen.
    + split; [done|]. intros [_ Hnot]. destruct (Hnot (ticket_key item)); [left|done].
    + rewrite IH, NoDup_cons. split.
      * intros [Hnd Hnot]. split_and!.
        -- intros Hin. apply Hnot in Hin. set_solver.
        -- done.
        -- intros k [->|Hin]%elem_of_cons; [done|].
           apply Hnot in Hin. set_solver.
      * intros [[Hhd Hnd] Hnot]. split; [done|].
        intros k Hin. apply not_elem_of_union. split.
        -- intros ->%elem_of_singleton. done.
        -- apply Hnot. by right.
Qed.

Lemma validate_tickets_loop_inl (seen : gset (Z * Z * Z)) (items : list TicketAttrs)
    (e : Exception) :
  validate_tickets_loop seen items = inl e →
  e = ValidationError (Message "Duplicate tickets in request.").
Proof.
  revert seen. induction items as [|item items IH]; intros seen; simpl; [done|].
  case_bool_decide; [by intros [= <-]|]. apply IH.
Qed.

Lemma validate_items_inr (st : Store) (data : list TicketData)
    (ret : list TicketAttrs) (errors : list ErrorDetail) :
  validate_items st data = inr (ret, errors) → any_errors errors = false →
  Forall2 (λ d a, run_child_validation st d = inr a) data ret.
Proof.
  revert ret errors. induction data as [|d data IH]; intros ret errors; simpl.
  - intros [= <- <-] _. constructor.
  - destruct (run_child_validation st d) as [e|a] eqn:Hd.
    + destruct e as [detail| | | | | | |]; try done.
      destruct (validate_items st data) as [e'|[ret' errors']]; [done|].
      intros [= <- <-]. simpl. destruct detail; [|done..].
      simpl. intros Hno. pose proof (run_child_validation_inl_ne st d) as Hne.
      by apply Hne in Hd.
    + destruct (validate_items st data) as [e'|[ret' errors']]; [done|].
      intros [= <- <-]. simpl. intros Hno. constructor; eauto.
Qed.

(** What [is_valid] hands to [create]: one validated item per submitted
    item, in order, and no key twice. *)
Lemma is_valid_inr (st : Store) (data : list TicketData) (v : list TicketAttrs) :
  is_valid st data = inr v →
  Forall2 (λ d a, run_child_validation st d = inr a) data v ∧
  NoDup (ticket_key <$> v).
Proof.
  unfold is_valid, tickets_run_validation, validate_tickets.
  destruct (validate_items st data) as [e|[ret errors]] eqn:Hitems; [done|].
  destruct (any_errors errors) eqn:Herr; [done|].
  destruct (validate_tickets_loop ∅ ret) as [e|[]] eqn:Hloop; [done|].
  intros [= <-]. split; [by eapply validate_items_inr|].
  by apply validate_tickets_loop_inr in Hloop as [? _].
Qed.

Lemma is_valid_inl (st : Store) (data : list TicketData) (e : Exception) :
  fk_sessions st → is_valid st data = inl e → is_validation_error e.
Proof.
  intros Hfk. unfold is_valid, tickets_run_validation, validate_tickets.
  destruct (validate_items_spec st data Hfk) as (ret & errors & -> & _ & _).
  destruct (any_errors errors); [by intros [= <-]|].
  destruct (validate_tickets_loop ∅ ret) as [e'|[]] eqn:Hloop; [|done].
  apply validate_tickets_loop_inl in Hloop as ->. by intros [= <-].
Qed.

(** An item that does not pass makes the whole request invalid. *)
Lemma is_valid_item_refused (st : Store) (data : list TicketData) (d : TicketData) :
  fk_sessions st → d ∈ data → (∀ a, run_child_validation st d ≠ inr a) →
  ∃ e, is_valid st data = inl e ∧ is_validation_error e.
Proof.
  intros Hfk Hin Hd.
  destruct (is_valid st data) as [e|v] eqn:Hv.
  - exists e. split; [done|]. by eapply is_valid_inl.
  - apply is_valid_inr in Hv as [Hall _].
    apply list_elem_of_lookup in Hin as [i Hi].
    eapply Forall2_lookup_l in Hall as (a & _ & Ha); [|exact Hi].
    by apply Hd in Ha.
Qed.

Section StorageFacts.

#[local] Set Default Proof Using "Type".

Variable order_constraints : Store → Order → bool.
Variable ticket_constraints : Store → Ticket → bool.
Variable db : Database.
Variable models : ModelDeclarations.

#[local] Abbreviation bulk_create := (Ticket_objects_bulk_create ticket_constraints).
#[local] Abbreviation create := (create order_constraints ticket_constraints).
#[local] Abbreviation handle := (handle order_constraints ticket_constraints db models).
#[local] Abbreviation run := (run order_constraints ticket_constraints db models).
#[local] Abbreviation reachable_keeping_halls :=
  (reachable_keeping_halls order_constraints ticket_constraints db models).
#[local] Abbreviation OrderViewSet_create :=
  (OrderViewSet_create order_constraints ticket_constraints).
#[local] Abbreviation MovieSessionViewSet_queryset := (MovieSessionViewSet_queryset db).
#[local] Abbreviation MovieSessionViewSet_list := (MovieSessionViewSet_list db).

Lemma bulk_create_ok (objs : list Ticket) (st st' : Store) (u : unit) :
  bulk_create objs st = (inr u, st') →
  st' = set_tickets st (insert_rows objs (tickets st)).
Proof.
  revert st. induction objs as [|t objs IH]; intros st; simpl.
  - unfold ret. intros [= _ <-]. by destruct st.
  - unfold bind, Ticket_insert.
    destruct (ticket_constraints st t); [|done].
    intros H. apply IH in H. by rewrite H.
Qed.

(** What a successful [create] leaves behind. *)
Lemma create_ok (u : RequestUser) (now : Z) (tickets_data : list TicketAttrs)
    (st st' : Store) (o : Z * Order) :
  create u now tickets_data st = (inr o, st') →
  ∃ uid, u = User uid ∧ o = (next_pk (orders st), mkOrder uid now) ∧
    st' = mkStore (movies st) (cinema_halls st) (movie_sessions st)
            (<[o.1 := o.2]> (orders st))
            (insert_rows (Ticket_init o <$> tickets_data) (tickets st)).
Proof.
  unfold create, atomic, bind, Order_objects_create.
  destruct u as [|uid]; [done|].
  destruct (order_constraints st _); [|done].
  destruct (bulk_create _ _) as [[e|[]] st1] eqn:Hb; [done|].
  unfold ret. intros [= <- <-]. apply bulk_create_ok in Hb.
  exists uid. by rewrite Hb.
Qed.

(** A [create] that raises leaves the store as it found it. *)
Lemma create_raises (u : RequestUser) (now : Z) (tickets_data : list TicketAttrs)
    (st st' : Store) (e : Exception) :
  create u now tickets_data st = (inl e, st') → st' = st.
Proof.
  unfold create, atomic.
  destruct (bind _ _ st) as [[e'|o] st1]; by intros [= _ <-].
Qed.

(** ** Order creation *)

Lemma create_view_400 (uid now : Z) (data : list TicketData) (st : Store)
    (e : Exception) :
  is_valid st data = inl e → is_validation_error e →
  OrderViewSet_create (User uid) now data st = (HTTP_400 e, st).
Proof.
  intros Hv He. unfold OrderViewSet_create. rewrite Hv. by destruct e.
Qed.

Lemma item_refused_400 (uid now : Z) (data : list TicketData) (st : Store)
    (d : TicketData) :
  fk_sessions st → d ∈ data → (∀ a, run_child_validation st d ≠ inr a) →
  ∃ e, is_validation_error e ∧
    OrderViewSet_create (User uid) now data st = (HTTP_400 e, st).
Proof.
  intros Hfk Hin Hd.
  destruct (is_valid_item_refused st data d Hfk Hin Hd) as (e & Hv & He).
  exists e. split; [done|]. by apply create_view_400.
Qed.

(** C2: a submitted ticket whose row or seat lies outside the hall of its
    session is refused by [validate] with the row or the seat message, and
    the create action answers with a validation error (status 400) and
    leaves the store as it was: no Order and no Ticket is written. *)
Theorem out_of_range_seat_rejected (uid now : Z) (data : list TicketData)
    (st : Store) (d : TicketData) (ms : MovieSession) (h : CinemaHall) :
  fk_sessions st → d ∈ data →
  movie_sessions st !! data_movie_session d = Some ms →
  cinema_halls st !! cinema_hall ms = Some h →
  data_row d < 1 ∨ data_row d > rows h ∨
    data_seat d < 1 ∨ data_seat d > seats_in_row h →
  (run_child_validation st d =
     inl (ValidationError (FieldError "row" "Row number is out of range.")) ∨
   run_child_validation st d =
     inl (ValidationError (FieldError "seat" "Seat number is out of range."))) ∧
  ∃ e, is_validation_error e ∧
    OrderViewSet_create (User uid) now data st = (HTTP_400 e, st).
Proof.
  intros Hfk Hin Hms Hh Hout. split.
  - unfold run_child_validation, to_internal_value, validate.
    rewrite Hms. simpl. rewrite Hh.
    case_bool_decide; [by left|]. case_bool_decide; [by right|]. lia.
  - apply item_refused_400 with d; [done..|].
    intros a (ms' & h' & ? & ? & _ & ? & ? & _)%run_child_validation_inr.
    simplify_eq. lia.
Qed.

(** C3: a submitted ticket for a seat that a Ticket of the same session
    already holds makes the create action answer with a validation error
    and leave the store as it was; when the seat lies inside the hall, the
    item is refused with the message that the place is taken. *)
Theorem taken_seat_rejected (uid now : Z) (data : list TicketData) (st : Store)
    (d : TicketData) :
  fk_sessions st → d ∈ data →
  taken st (data_movie_session d) (data_row d) (data_seat d) →
  (∀ ms h, movie_sessions st !! data_movie_session d = Some ms →
     cinema_halls st !! cinema_hall ms = Some h →
     1 ≤ data_row d ≤ rows h → 1 ≤ data_seat d ≤ seats_in_row h →
     run_child_validation st d =
       inl (ValidationError (Message "This place is already taken."))) ∧
  ∃ e, is_validation_error e ∧
    OrderViewSet_create (User uid) now data st = (HTTP_400 e, st).
Proof.
  intros Hfk Hin Htaken. split.
  - intros ms h Hms Hh Hr Hs.
    unfold run_child_validation, to_internal_value, validate.
    rewrite Hms. simpl. rewrite Hh.
    case_bool_decide; [lia|]. case_bool_decide; [lia|].
    apply qs_exists_tickets_at in Htaken. by rewrite Htaken.
  - apply item_refused_400 with d; [done..|].
    by intros a (ms' & h' & _ & _ & _ & _ & _ & ?)%run_child_validation_inr.
Qed.

(** When every item passes, the list serializer returns the validated
    items. *)
Lemma tickets_run_validation_pass (st : Store) (data : list TicketData) :
  Forall (λ d, ∃ a, run_child_validation st d = inr a) data →
  ∃ v, tickets_run_validation st data = inr v.
Proof.
  intros Hall. unfold tickets_run_validation.
  assert (∃ v errors, validate_items st data = inr (v, errors) ∧
            any_errors errors = false) as (v & errors & -> & ->); [|by exists v].
  induction Hall as [|d data [a Ha] _ (v & errors & IH & Herr)].
  - by exists [], [].
  - simpl. rewrite Ha, IH. by exists (a :: v), (NoErrors :: errors).
Qed.

(** C4: a request that names the same (session, row, seat) at two places of
    its ticket list is answered with a validation error, and the store is
    left as it was; when each item passes on its own, the error is the one
    [validate_tickets] raises. *)
Theorem duplicate_tickets_rejected (uid now : Z) (data : list TicketData)
    (st : Store) (i j : nat) (d : TicketData) :
  fk_sessions st → i ≠ j → data !! i = Some d → data !! j = Some d →
  ∃ e, is_validation_error e ∧
    OrderViewSet_create (User uid) now data st = (HTTP_400 e, st) ∧
    (Forall (λ d, ∃ a, run_child_validation st d = inr a) data →
     e = ValidationError (Message "Duplicate tickets in request.")).
Proof.
  intros Hfk Hij Hi Hj.
  destruct (is_valid st data) as [e|v] eqn:Hv.
  - exists e. split_and!; [by eapply is_valid_inl| |].
    + apply create_view_400; [done|]. by eapply is_valid_inl.
    + intros [v Hpass]%tickets_run_validation_pass.
      unfold is_valid, validate_tickets in Hv. rewrite Hpass in Hv.
      destruct (validate_tickets_loop ∅ v) as [e'|[]] eqn:Hloop; [|done].
      apply validate_tickets_loop_inl in Hloop. congruence.
  - exfalso. apply is_valid_inr in Hv as [Hall Hnd].
    destruct (Forall2_lookup_l _ _ _ _ _ Hall Hi) as (ai & Hai & Hdi).
    destruct (Forall2_lookup_l _ _ _ _ _ Hall Hj) as (aj & Haj & Hdj).
    assert (ai = aj) as -> by congruence.
    apply Hij. eapply NoDup_lookup; [exact Hnd| |].
    + by rewrite list_lookup_fmap, Hai.
    + by rewrite list_lookup_fmap, Haj.
Qed.

(** The row [create] builds from a validated item is the submitted one. *)
Lemma tickets_to_create_data (st : Store) (data : list TicketData)
    (v : list TicketAttrs) (o : Z * Order) :
  Forall2 (λ d a, run_child_validation st d = inr a) data v →
  Ticket_init o <$> v =
  (λ d, mkTicket (data_row d) (data_seat d) (data_movie_session d) o.1) <$> data.
Proof.
  induction 1 as [|d a data v Hd _ IH]; [done|].
  rewrite !fmap_cons, IH. f_equal.
  apply run_child_validation_inr in Hd as (ms & h & _ & _ & -> & _). done.
Qed.

Lemma ticket_key_data_key (st : Store) (data : list TicketData)
    (v : list TicketAttrs) :
  Forall2 (λ d a, run_child_validation st d = inr a) data v →
  ticket_key <$> v = data_key <$> data.
Proof.
  induction 1 as [|d a data v Hd _ IH]; [done|].
  rewrite !fmap_cons, IH. f_equal.
  apply run_child_validation_inr in Hd as (ms & h & _ & _ & -> & _). done.
Qed.

(** The two ways the create action can end: nothing written, or the order
    and all its tickets written after every item passed validation. *)
Lemma create_view_cases (u : RequestUser) (now : Z) (data : list TicketData)
    (st : Store) :
  (OrderViewSet_create u now data st).2 = st ∨
  ∃ (uid : Z) (new : list (Z * Ticket)),
    let pk := next_pk (orders st) in
    let st' := mkStore (movies st) (cinema_halls st) (movie_sessions st)
                 (<[pk := mkOrder uid now]> (orders st))
                 (list_to_map new ∪ tickets st) in
    u = User uid ∧
    Forall (λ d, ∃ a, run_child_validation st d = inr a) data ∧
    NoDup (data_key <$> data) ∧
    new.*2 = (λ d, mkTicket (data_row d) (data_seat d) (data_movie_session d) pk)
               <$> data ∧
    NoDup new.*1 ∧ (∀ k, k ∈ new.*1 → tickets st !! k = None) ∧
    OrderViewSet_create u now data st =
      (HTTP_201 (order_create_data st' (pk, mkOrder uid now)), st').
Proof.
  unfold OrderViewSet_create. destruct u as [|uid]; [by left|].
  destruct (is_valid st data) as [e|v] eqn:Hv; [destruct e; by left|].
  destruct (create _ _ _ _) as [[e|ord] st'] eqn:Hc.
  - left. by apply create_raises in Hc.
  - right. apply create_ok in Hc as (uid' & [= <-] & -> & ->).
    apply is_valid_inr in Hv as [Hall Hkeys].
    destruct (insert_rows_spec
                (Ticket_init (next_pk (orders st), mkOrder uid now) <$> v)
                (tickets st)) as (new & Hnew & Hnd & Hfresh & Heq).
    exists uid, new. simpl. split_and!; [done| | | |done|done|].
    + apply Forall_forall. intros d [i Hi]%list_elem_of_lookup.
      destruct (Forall2_lookup_l _ _ _ _ _ Hall Hi) as (a & _ & Ha). eauto.
    + by rewrite <-(ticket_key_data_key st data v).
    + rewrite Hnew. by rewrite (tickets_to_create_data st data).
    + by rewrite Heq.
Qed.

(** C5: the create action is all-or-nothing. Either the store is left as it
    was, or the answer is 201 and the store gained exactly one Order, under
    a key that was free, and one Ticket per submitted item, each under a
    free key, with the submitted row, seat and session and referencing the
    new Order; every other row of every table is as before. *)
Theorem order_creation_all_or_nothing (u : RequestUser) (now : Z)
    (data : list TicketData) (st : Store) :
  (OrderViewSet_create u now data st).2 = st ∨
  ∃ (pk : Z) (o : Order) (new : list (Z * Ticket)) (body : Body),
    (OrderViewSet_create u now data st).1 = HTTP_201 body ∧
    orders st !! pk = None ∧
    new.*2 = (λ d, mkTicket (data_row d) (data_seat d) (data_movie_session d) pk)
               <$> data ∧
    NoDup new.*1 ∧ (∀ k, k ∈ new.*1 → tickets st !! k = None) ∧
    (OrderViewSet_create u now data st).2 =
      mkStore (movies st) (cinema_halls st) (movie_sessions st)
              (<[pk := o]> (orders st)) (list_to_map new ∪ tickets st).
Proof.
  destruct (create_view_cases u now data st)
    as [?|(uid & new & _ & _ & _ & Hnew & Hnd & Hfresh & ->)]; [by left|].
  right. exists (next_pk (orders st)), (mkOrder uid now), new. eexists.
  split_and!; [done|apply next_pk_fresh|done..].
Qed.


(** ** The seat invariant *)

Lemma seat_unique_subseteq (st st' : Store) :
  tickets st' ⊆ tickets st → seat_unique st → seat_unique st'.
Proof.
  intros Hsub Hu k1 k2 t1 t2 H1 H2. apply Hu; by eapply lookup_weaken.
Qed.

(** The rows of [new] that [create] wrote, found again by position. *)
Lemma new_ticket_lookup (new : list (Z * Ticket)) (data : list TicketData)
    (f : TicketData → Ticket) (k : Z) (t : Ticket) :
  NoDup new.*1 → new.*2 = f <$> data →
  (list_to_map new : gmap Z Ticket) !! k = Some t →
  ∃ i d, new !! i = Some (k, t) ∧ data !! i = Some d ∧ t = f d.
Proof.
  intros Hnd Hnew Hk. apply elem_of_list_to_map in Hk; [|done].
  apply list_elem_of_lookup in Hk as [i Hi]. exists i.
  assert (new.*2 !! i = Some t) as Ht by (by rewrite list_lookup_fmap, Hi).
  rewrite Hnew, list_lookup_fmap in Ht.
  destruct (data !! i) as [d|]; [|done]. exists d. by simplify_eq/=.
Qed.

Lemma create_seat_unique (u : RequestUser) (now : Z) (data : list TicketData)
    (st : Store) :
  seat_unique st → seat_unique (OrderViewSet_create u now data st).2.
Proof.
  intros Hu.
  destruct (create_view_cases u now data st)
    as [->|(uid & new & _ & Hpass & Hkeys & Hnew & Hnd & Hfresh & ->)]; [done|].
  intros k1 k2 t1 t2. cbn [snd tickets].
  rewrite !lookup_union_Some_raw.
  intros [H1|[_ H1]] [H2|[_ H2]] Hs Hr Hc.
  - destruct (new_ticket_lookup _ _ _ _ _ Hnd Hnew H1) as (i1 & d1 & Hi1 & Hd1 & ->).
    destruct (new_ticket_lookup _ _ _ _ _ Hnd Hnew H2) as (i2 & d2 & Hi2 & Hd2 & ->).
    simpl in Hs, Hr, Hc.
    assert (i1 = i2) as ->.
    { eapply NoDup_lookup; [exact Hkeys| |].
      - by rewrite list_lookup_fmap, Hd1.
      - rewrite list_lookup_fmap, Hd2. unfold data_key. simpl. congruence. }
    congruence.
  - exfalso.
    destruct (new_ticket_lookup _ _ _ _ _ Hnd Hnew H1) as (i1 & d1 & _ & Hd1 & ->).
    simpl in Hs, Hr, Hc.
    apply list_elem_of_lookup_2 in Hd1.
    destruct (proj1 (Forall_forall _ _) Hpass _ Hd1) as (a & Ha).
    apply run_child_validation_inr in Ha as (_ & _ & _ & _ & _ & _ & _ & Hfree).
    apply Hfree. by exists k2, t2.
  - exfalso.
    destruct (new_ticket_lookup _ _ _ _ _ Hnd Hnew H2) as (i2 & d2 & _ & Hd2 & ->).
    simpl in Hs, Hr, Hc.
    apply list_elem_of_lookup_2 in Hd2.
    destruct (proj1 (Forall_forall _ _) Hpass _ Hd2) as (a & Ha).
    apply run_child_validation_inr in Ha as (_ & _ & _ & _ & _ & _ & _ & Hfree).
    apply Hfree. by exists k1, t1.
  - by eapply Hu.
Qed.

(** *** What the requests write *)

Lemma list_store (date movie_param : option Z) (st : Store) :
  (MovieSessionViewSet_list date movie_param st).2 = st.
Proof. unfold MovieSessionViewSet_list. by destruct (fetch _ _). Qed.

Lemma order_list_store (u : RequestUser) (page : Z) (st : Store) :
  (OrderViewSet_list u page st).2 = st.
Proof.
  unfold OrderViewSet_list. destruct u as [|uid]; [done|].
  destruct (paginate _ _ _) as [[[[? ?] ?] results]|]; [|done].
  by destruct (mapM _ results).
Qed.

Lemma hall_create_store (data : CinemaHall) (st : Store) :
  let st' := (CinemaHallViewSet_create models data st).2 in
  st' = st ∨
  (hall_validators models st None data = [] ∧
   st' = set_cinema_halls st (<[next_pk (cinema_halls st) := data]> (cinema_halls st))).
Proof.
  unfold CinemaHallViewSet_create.
  destruct (hall_validators models st None data); [by right|by left].
Qed.

Lemma hall_update_store (pk : Z) (data : CinemaHall) (st : Store) :
  let st' := (CinemaHallViewSet_update models pk data st).2 in
  st' = st ∨
  (is_Some (cinema_halls st !! pk) ∧ hall_validators models st (Some pk) data = [] ∧
   st' = set_cinema_halls st (<[pk := data]> (cinema_halls st))).
Proof.
  unfold CinemaHallViewSet_update.
  destruct (cinema_halls st !! pk) eqn:Hpk; [|by left].
  destruct (hall_validators models st (Some pk) data); [by right|by left].
Qed.

Lemma write_serializer_errors_nil (instance : option Z) (data : MovieSession)
    (st : Store) :
  MovieSessionWriteSerializer_errors models instance data st = [] →
  is_Some (movies st !! movie data) ∧ is_Some (cinema_halls st !! cinema_hall data) ∧
  session_validators models st instance data = [].
Proof.
  unfold MovieSessionWriteSerializer_errors.
  repeat case_bool_decide; simpl; done.
Qed.

Lemma session_create_store (data : MovieSession) (st : Store) :
  let st' := (MovieSessionViewSet_create models data st).2 in
  st' = st ∨
  (is_Some (movies st !! movie data) ∧ is_Some (cinema_halls st !! cinema_hall data) ∧
   st' = set_movie_sessions st
           (<[next_pk (movie_sessions st) := data]> (movie_sessions st))).
Proof.
  unfold MovieSessionViewSet_create.
  destruct (MovieSessionWriteSerializer_errors models None data st) eqn:He;
    [|by left].
  apply write_serializer_errors_nil in He as (? & ? & _). by right.
Qed.

Lemma queryset_lookup (st : Store) (pk : Z) (a : AnnotatedSession) :
  MovieSessionViewSet_queryset st !! pk = Some a ↔
  ∃ ms m h, movie_sessions st !! pk = Some ms ∧
    movies st !! movie ms = Some m ∧
    cinema_halls st !! cinema_hall ms = Some h ∧
    a = mkAnnotated ms m h (qs_count (session_tickets st pk))
          (sql_integer (int_max db) (rows h * seats_in_row h))
          (capacity ← sql_integer (int_max db) (rows h * seats_in_row h);
           sql_integer (bigint_max db) (capacity - qs_count (session_tickets st pk))).
Proof.
  unfold MovieSessionViewSet_queryset. rewrite map_lookup_imap.
  destruct (movie_sessions st !! pk) as [ms|] eqn:Hms; simpl.
  2: { split; [done|]. by intros (? & ? & ? & ? & _). }
  unfold annotate.
  destruct (movies st !! movie ms) as [m|] eqn:Hm; simpl.
  2: { split; [done|]. intros (? & ? & ? & ? & ? & _). congruence. }
  destruct (cinema_halls st !! cinema_hall ms) as [h|] eqn:Hh; simpl.
  2: { split; [done|]. intros (? & ? & ? & ? & ? & ? & _). congruence. }
  split.
  - intros [= <-]. by exists ms, m, h.
  - intros (? & ? & ? & ? & ? & ? & ->). by simplify_eq.
Qed.

Lemma get_object_inr (pk : Z) (st : Store) (a : AnnotatedSession) :
  MovieSessionViewSet_get_object db pk st = inr a →
  ∃ m h, movie_sessions st !! pk = Some (session a) ∧
    movies st !! movie (session a) = Some m ∧
    cinema_halls st !! cinema_hall (session a) = Some h.
Proof.
  unfold MovieSessionViewSet_get_object. cbn [MovieSessionViewSet_get_queryset].
  destruct (MovieSessionViewSet_queryset st !! pk) as [a'|] eqn:Hq; [|done].
  destruct (overflows db a'); [done|]. intros [= ->].
  apply queryset_lookup in Hq as (ms & m & h & ? & ? & ? & ->). by exists m, h.
Qed.

Lemma session_update_store (pk : Z) (data : MovieSession) (st : Store) :
  let st' := (MovieSessionViewSet_update db models pk data st).2 in
  st' = st ∨
  (∃ ms h, movie_sessions st !! pk = Some ms ∧
     cinema_halls st !! cinema_hall ms = Some h ∧
     is_Some (movies st !! movie data) ∧
     is_Some (cinema_halls st !! cinema_hall data) ∧
     st' = set_movie_sessions st (<[pk := data]> (movie_sessions st))).
Proof.
  unfold MovieSessionViewSet_update.
  destruct (MovieSessionViewSet_get_object db pk st) as [r|a] eqn:Hobj; [by left|].
  apply get_object_inr in Hobj as (m & h & Hms & _ & Hh).
  destruct (MovieSessionWriteSerializer_errors models (Some pk) data st) eqn:He;
    [|by left].
  apply write_serializer_errors_nil in He as (? & ? & _).
  right. by exists (session a), h.
Qed.

Lemma delete_sessions_inr (gone : gmap Z MovieSession) (st st' : Store) :
  delete_sessions models gone st = inr st' →
  st' = without_sessions gone st ∧
  (ticket_session_on_delete models = CASCADE ∨
   ∀ k t, tickets st !! k = Some t → gone !! movie_session t = None).
Proof.
  unfold delete_sessions, protects.
  destruct (ticket_session_on_delete models); [intros [= <-]; by split; [|left]|].
  unfold qs_exists. case_bool_decide as Hempty; [done|]. intros [= <-].
  split; [done|right]. intros k t Hk.
  destruct (gone !! movie_session t) eqn:Hg; [|done]. exfalso.
  apply (f_equal (lookup k)) in Hempty.
  rewrite lookup_empty in Hempty. apply map_lookup_filter_None in Hempty.
  destruct Hempty as [Hnone|Hnone]; [congruence|].
  apply (Hnone t Hk). simpl. by rewrite Hg.
Qed.

Lemma delete_holders_inr (rule : OnDelete) (gone : gmap Z MovieSession)
    (st st' : Store) :
  delete_holders models rule gone st = inr st' →
  st' = without_sessions gone st ∧
  (ticket_session_on_delete models = CASCADE ∨
   ∀ k t, tickets st !! k = Some t → gone !! movie_session t = None) ∧
  (rule = CASCADE ∨ gone = ∅).
Proof.
  unfold delete_holders, protects. destruct rule.
  - intros [-> ?]%delete_sessions_inr. split_and!; [done..|by left].
  - unfold qs_exists. case_bool_decide as Hempty; [done|].
    intros [-> ?]%delete_sessions_inr. split_and!; [done..|].
    right. by destruct (decide (gone = ∅)).
Qed.

Lemma session_destroy_store (pk : Z) (st : Store) :
  let st' := (MovieSessionViewSet_destroy db models pk st).2 in
  st' = st ∨
  (∃ ms, movie_sessions st !! pk = Some ms ∧
     st' = without_sessions {[pk := ms]} st ∧
     (ticket_session_on_delete models = CASCADE ∨
      ∀ k t, tickets st !! k = Some t → movie_session t ≠ pk)).
Proof.
  unfold MovieSessionViewSet_destroy.
  destruct (MovieSessionViewSet_get_object db pk st) as [r|a] eqn:Hobj; [by left|].
  apply get_object_inr in Hobj as (m & h & Hms & _ & _).
  destruct (delete_sessions models _ st) as [e|st'] eqn:Hdel; [by left|].
  apply delete_sessions_inr in Hdel as [-> Hrule].
  right. exists (session a). split_and!; [done..|].
  destruct Hrule as [?|Hnone]; [by left|right].
  intros k t Hk Heq. apply Hnone in Hk. by rewrite Heq, lookup_singleton_eq in Hk.
Qed.

Lemma hall_destroy_store (pk : Z) (st : Store) :
  let gone := filter (λ ks : Z * MovieSession, cinema_hall ks.2 = pk)
                (movie_sessions st) in
  let st' := (CinemaHallViewSet_destroy models pk st).2 in
  st' = st ∨
  (st' = set_cinema_halls (without_sessions gone st) (delete pk (cinema_halls st)) ∧
   (ticket_session_on_delete models = CASCADE ∨
    ∀ k t, tickets st !! k = Some t → gone !! movie_session t = None) ∧
   (session_hall_on_delete models = CASCADE ∨ gone = ∅)).
Proof.
  unfold CinemaHallViewSet_destroy.
  destruct (cinema_halls st !! pk); [|by left].
  destruct (delete_holders models _ _ st) as [e|st'] eqn:Hdel; [by left|].
  apply delete_holders_inr in Hdel as (-> & ? & ?). by right.
Qed.

Lemma movie_destroy_store (pk : Z) (st : Store) :
  let gone := filter (λ ks : Z * MovieSession, movie ks.2 = pk) (movie_sessions st) in
  let st' := (MovieViewSet_destroy models pk st).2 in
  st' = st ∨
  (st' = set_movies (without_sessions gone st) (delete pk (movies st)) ∧
   (ticket_session_on_delete models = CASCADE ∨
    ∀ k t, tickets st !! k = Some t → gone !! movie_session t = None) ∧
   (session_movie_on_delete models = CASCADE ∨ gone = ∅)).
Proof.
  unfold MovieViewSet_destroy.
  destruct (movies st !! pk); [|by left].
  destruct (delete_holders models _ _ st) as [e|st'] eqn:Hdel; [by left|].
  apply delete_holders_inr in Hdel as (-> & ? & ?). by right.
Qed.

Lemma order_update_store (partial : bool) (u : RequestUser) (pk : Z)
    (data : option Z) (st : Store) :
  let st' := (OrderViewSet_update models partial u pk data st).2 in
  st' = st ∨
  (∃ o, orders st !! pk = Some o ∧ u = User (user o) ∧
     (st' = set_orders st (<[pk := o]> (orders st)) ∨
      ∃ value, data = Some value ∧ created_at_field models ≠ ReadOnly ∧
        st' = set_orders st (<[pk := mkOrder (user o) value]> (orders st)))).
Proof.
  unfold OrderViewSet_update. destruct u as [|uid]; [by left|].
  destruct (filter _ _ !! pk) as [o|] eqn:Hpk; [|by left].
  apply map_lookup_filter_Some in Hpk as [Hpk Huser]. simpl in Huser. subst uid.
  destruct (created_at_field models) eqn:Hfield, data as [value|], partial;
    repeat match goal with
    | |- context [order_list_data ?s ?x] => destruct (order_list_data s x)
    end; simpl;
    first [ by left
          | right; exists o; split_and!; [done..|];
            first [ by left | right; exists value; by split_and! ] ].
Qed.

Lemma without_sessions_tickets (gone : gmap Z MovieSession) (st : Store) :
  tickets (without_sessions gone st) ⊆ tickets st.
Proof. apply map_filter_subseteq. Qed.

(** Only [create] of the orders adds a ticket. *)
Lemma handle_tickets_subseteq (req : Request) (st : Store) :
  (∀ u now data, req ≠ OrderCreate u now data) →
  tickets (handle req st).2 ⊆ tickets st.
Proof.
  intros Hreq.
  destruct req as [date mp|pk data|u page|u now data|u pk|partial u pk data
                  |data|pk|data|pk data|pk|pk]; cbn [handle].
  - by rewrite list_store.
  - by destruct (hall_update_store pk data st) as [->|(_ & _ & ->)].
  - by rewrite order_list_store.
  - by destruct (Hreq u now data).
  - unfold OrderViewSet_destroy. destruct u as [|uid]; [done|].
    destruct (filter _ _ !! pk); [|done]. apply map_filter_subseteq.
  - by destruct (order_update_store partial u pk data st)
      as [->|(o & _ & _ & [->|(? & _ & _ & ->)])].
  - by destruct (hall_create_store data st) as [->|(_ & ->)].
  - destruct (hall_destroy_store pk st) as [->|(-> & _)]; [done|].
    apply without_sessions_tickets.
  - by destruct (session_create_store data st) as [->|(_ & _ & ->)].
  - by destruct (session_update_store pk data st) as [->|(? & ? & _ & _ & _ & _ & ->)].
  - destruct (session_destroy_store pk st) as [->|(? & _ & -> & _)]; [done|].
    apply without_sessions_tickets.
  - destruct (movie_destroy_store pk st) as [->|(-> & _)]; [done|].
    apply without_sessions_tickets.
Qed.

Lemma handle_seat_unique (req : Request) (st : Store) :
  seat_unique st → seat_unique (handle req st).2.
Proof.
  intros Hu.
  assert ((∃ u now data, req = OrderCreate u now data) ∨
          ∀ u now data, req ≠ OrderCreate u now data) as [(u & now & data & ->)|Hreq]
    by (destruct req; eauto).
  - by apply create_seat_unique.
  - eapply seat_unique_subseteq; [|exact Hu]. by apply handle_tickets_subseteq.
Qed.

(** C7: every request keeps the seat invariant: if no two Tickets of one
    session share row and seat before it, none do after it; so it holds in
    every store the requests lead to from a store that has it. *)
Theorem seat_unique_preserved (req : Request) (reqs : list Request) (st : Store) :
  seat_unique st →
  seat_unique (handle req st).2 ∧ seat_unique (run reqs st).
Proof.
  intros Hu. split; [by apply handle_seat_unique|].
  revert st Hu. induction reqs as [|r reqs IH]; intros st Hu; [done|].
  apply IH. by apply handle_seat_unique.
Qed.

(** ** Lifetime of orders and tickets *)







(** ** Availability *)

(** Distinct seats inside an [R] by [S] grid are at most [R * S]. *)
Lemma seats_in_grid_bound (l : list (Z * Z)) (R S : Z) :
  NoDup l → (∀ p, p ∈ l → 1 ≤ p.1 ≤ R ∧ 1 ≤ p.2 ≤ S) → 0 ≤ R * S →
  Z.of_nat (length l) ≤ R * S.
Proof.
  intros Hnd Hin Hcap.
  assert (l = [] ∨ (1 ≤ R ∧ 1 ≤ S)) as [->|[HR HS]]; [|simpl; lia|].
  { destruct l as [|p0 l0]; [by left|right].
    specialize (Hin p0 ltac:(left)). lia. }
  assert (l ⊆+ cprod (seqZ 1 R) (seqZ 1 S)) as Hsub.
  { apply NoDup_submseteq; [done|]. intros p Hp.
    apply list_elem_of_cprod. rewrite !elem_of_seqZ.
    specialize (Hin p Hp). lia. }
  apply submseteq_length in Hsub.
  rewrite list_cprod_list_prod, length_prod, !length_seqZ in Hsub.
  nia.
Qed.

(** Counting the rows a filter keeps, on the table or on its list of rows. *)
Lemma size_filter_map_to_list {A} (P : Z * A → Prop) `{!∀ x, Decision (P x)}
    (m : gmap Z A) :
  size (filter P m) = length (filter P (map_to_list m)).
Proof.
  rewrite <-length_map_to_list. apply Permutation_length, NoDup_Permutation.
  - apply NoDup_map_to_list.
  - apply NoDup_filter, NoDup_map_to_list.
  - intros [k x]. rewrite list_elem_of_filter, !elem_of_map_to_list.
    rewrite map_lookup_filter_Some. tauto.
Qed.

Lemma sql_integer_Some (max n : Z) :
  - max - 1 ≤ n ≤ max → sql_integer max n = Some n.
Proof. intros Hn. unfold sql_integer. by rewrite bool_decide_eq_true_2. Qed.

Lemma sql_integer_inv (max n v : Z) : sql_integer max n = Some v → v = n.
Proof. unfold sql_integer. case_bool_decide; congruence. Qed.

Lemma fetch_inr (qs : gmap Z AnnotatedSession) :
  (overflow_raises db = false ∨ map_Forall (λ _ a, is_Some (tickets_available a)) qs) →
  fetch db qs = inr (map_to_list qs).
Proof.
  intros Hok. unfold fetch.
  destruct (existsb _ _) eqn:Hex; [|done]. exfalso.
  apply existsb_exists in Hex as ([k a] & Hin & Hover).
  apply list_elem_of_In, elem_of_map_to_list in Hin.
  unfold overflows in Hover. apply andb_prop in Hover as [Hraises Hnone].
  apply bool_decide_eq_true_1 in Hnone. simpl in *.
  destruct Hok as [?|Hall]; [congruence|].
  apply Hall in Hin as [? ?]. congruence.
Qed.

Lemma fetch_cases (qs : gmap Z AnnotatedSession) :
  fetch db qs = inr (map_to_list qs) ∨ fetch db qs = inl DataError.
Proof. unfold fetch. destruct (existsb _ _); [by right|by left]. Qed.

(** C1, as the code has it: for a session with its movie and hall in the
    store, whose rows * seats_in_row fits the integers the storage
    multiplies columns in, and whose rows * seats_in_row minus the number
    of Ticket rows that reference the session fits those it subtracts a
    count in, the row of the annotated queryset carries that difference as
    tickets_available; an unfiltered list answer with status 200 shows it,
    a storage that does not raise on overflow always answers so, and the
    list action hands the store back as it received it. *)
Theorem tickets_available_formula (st : Store) (pk : Z) (ms : MovieSession)
    (m : Movie) (h : CinemaHall) (date movie_param : option Z) :
  movie_sessions st !! pk = Some ms →
  movies st !! movie ms = Some m →
  cinema_halls st !! cinema_hall ms = Some h →
  let sold := Z.of_nat (length (filter (λ kt : Z * Ticket, movie_session kt.2 = pk)
                                  (map_to_list (tickets st)))) in
  - int_max db - 1 ≤ rows h * seats_in_row h ≤ int_max db →
  - bigint_max db - 1 ≤ rows h * seats_in_row h - sold ≤ bigint_max db →
  (∃ a, MovieSessionViewSet_queryset st !! pk = Some a ∧
        tickets_available a = Some (rows h * seats_in_row h - sold)) ∧
  (∀ ds, (MovieSessionViewSet_list None None st).1 = HTTP_200 (SessionListBody ds) →
     ∃ d, d ∈ ds ∧ sl_id d = pk ∧
       sl_tickets_available d = Some (rows h * seats_in_row h - sold)) ∧
  (overflow_raises db = false →
     ∃ ds, (MovieSessionViewSet_list None None st).1 = HTTP_200 (SessionListBody ds)) ∧
  (MovieSessionViewSet_list date movie_param st).2 = st.
Proof.
  intros Hms Hm Hh sold Hcap Havail.
  assert (qs_count (session_tickets st pk) = sold) as Hsold.
  { unfold qs_count, session_tickets, sold. by rewrite size_filter_map_to_list. }
  assert (MovieSessionViewSet_queryset st !! pk =
          Some (mkAnnotated ms m h sold (Some (rows h * seats_in_row h))
                  (Some (rows h * seats_in_row h - sold)))) as Hq.
  { apply queryset_lookup. exists ms, m, h. rewrite Hsold.
    rewrite (sql_integer_Some _ _ Hcap). simpl.
    by rewrite (sql_integer_Some _ _ Havail). }
  split_and!; [eexists; split; [exact Hq|done]| | |apply list_store].
  - intros ds. unfold MovieSessionViewSet_list.
    destruct (fetch_cases (MovieSessionViewSet_get_queryset db None None st))
      as [->| ->]; [|done].
    intros [= <-].
    exists (session_list_data
              (pk, mkAnnotated ms m h sold (Some (rows h * seats_in_row h))
                     (Some (rows h * seats_in_row h - sold)))).
    split_and!; [|done..].
    apply list_elem_of_fmap. eexists. split; [done|].
    apply elem_of_map_to_list. exact Hq.
  - intros Hraises. unfold MovieSessionViewSet_list.
    rewrite fetch_inr by (by left). by eexists.
Qed.

(** ** Availability is not negative while no hall shrinks under a session *)

Lemma in_hall_frame (st st' : Store) :
  tickets st' = tickets st → movie_sessions st' = movie_sessions st →
  cinema_halls st' = cinema_halls st → in_hall st → in_hall st'.
Proof.
  intros Ht Hs Hh Hin k t. rewrite Ht, Hs, Hh. apply Hin.
Qed.

Lemma in_hall_without_sessions (gone : gmap Z MovieSession) (st : Store) :
  in_hall st → in_hall (without_sessions gone st).
Proof.
  intros Hin k t [Hk Hg]%map_lookup_filter_Some. simpl in Hg.
  destruct (Hin k t Hk) as (ms & h & Hms & Hh & ? & ?).
  exists ms, h. split_and!; [by apply map_lookup_filter_Some|done|lia..].
Qed.

Lemma in_hall_preserved (req : Request) (st : Store) :
  in_hall st → ¬ shrinks_hall req st → in_hall (handle req st).2.
Proof.
  intros Hin Hkeep.
  destruct req as [date mp|pk data|u page|u now data|u pk|partial u pk data
                  |data|pk|data|pk data|pk|pk]; cbn [handle].
  - by rewrite list_store.
  - destruct (hall_update_store pk data st) as [->|([h0 Hpk] & _ & ->)]; [done|].
    intros k t Hk. destruct (Hin k t Hk) as (ms & h & Hms & Hh & Hr & Hs).
    cbn [set_cinema_halls movie_sessions cinema_halls].
    destruct (decide (cinema_hall ms = pk)) as [Heq|Hne].
    + exists ms, data. rewrite Heq, lookup_insert_eq. split_and!; try done.
      all: assert (h = h0) as -> by congruence.
      all: simpl in Hkeep; assert (¬ (rows data < rows h0 ∨
             seats_in_row data < seats_in_row h0)) by naive_solver; lia.
    + exists ms, h. by rewrite lookup_insert_ne.
  - by rewrite order_list_store.
  - destruct (create_view_cases u now data st)
      as [->|(uid & new & _ & Hpass & _ & Hnew & Hnd & _ & ->)]; [done|].
    intros k t. cbn [snd tickets movie_sessions cinema_halls].
    rewrite lookup_union_Some_raw. intros [Hk|[_ Hk]]; [|by apply Hin in Hk].
    destruct (new_ticket_lookup _ _ _ _ _ Hnd Hnew Hk) as (i & d & _ & Hd & ->).
    apply list_elem_of_lookup_2 in Hd.
    destruct (proj1 (Forall_forall _ _) Hpass _ Hd) as (a & Ha).
    apply run_child_validation_inr in Ha as (ms & h & ? & ? & _ & ? & ? & _).
    by exists ms, h.
  - unfold OrderViewSet_destroy. destruct u as [|uid]; [done|].
    destruct (filter _ _ !! pk); [|done].
    intros k t [Hk _]%map_lookup_filter_Some. by apply Hin in Hk.
  - destruct (order_update_store partial u pk data st)
      as [->|(o0 & _ & _ & [->|(value & _ & _ & ->)])]; [done|..];
      by eapply in_hall_frame.
  - destruct (hall_create_store data st) as [->|(_ & ->)]; [done|].
    intros k t Hk. destruct (Hin k t Hk) as (ms & h & Hms & Hh & Hr & Hs).
    exists ms, h. cbn [set_cinema_halls movie_sessions cinema_halls].
    split_and!; [done| |lia..].
    rewrite lookup_insert_ne; [done|]. intros Heq.
    by rewrite <-Heq, next_pk_fresh in Hh.
  - destruct (hall_destroy_store pk st) as [->|(-> & _)]; [done|].
    intros k t [Hk Hg]%map_lookup_filter_Some. simpl in Hg.
    destruct (Hin k t Hk) as (ms & h & Hms & Hh & ? & ?).
    exists ms, h. cbn [set_cinema_halls without_sessions movie_sessions cinema_halls].
    split_and!; [by apply map_lookup_filter_Some| |lia..].
    rewrite lookup_delete_ne; [done|]. intros Heq.
    assert (filter (λ ks : Z * MovieSession, cinema_hall ks.2 = pk)
              (movie_sessions st) !! movie_session t = Some ms) as Hin'
      by (by apply map_lookup_filter_Some).
    congruence.
  - destruct (session_create_store data st) as [->|(_ & _ & ->)]; [done|].
    intros k t Hk. destruct (Hin k t Hk) as (ms & h & Hms & Hh & Hr & Hs).
    exists ms, h. cbn [set_movie_sessions movie_sessions cinema_halls].
    split_and!; [|done|lia..].
    rewrite lookup_insert_ne; [done|]. intros Heq.
    by rewrite <-Heq, next_pk_fresh in Hms.
  - destruct (session_update_store pk data st)
      as [->|(ms0 & h0 & Hms0 & Hh0 & _ & [h' Hh'] & ->)]; [done|].
    intros k t Hk. destruct (Hin k t Hk) as (ms & h & Hms & Hh & Hr & Hs).
    cbn [set_movie_sessions movie_sessions cinema_halls].
    destruct (decide (movie_session t = pk)) as [Heq|Hne].
    + exists data, h'. rewrite Heq, lookup_insert_eq. split_and!; try done.
      all: rewrite Heq in Hms; assert (ms = ms0) as -> by congruence.
      all: assert (h = h0) as -> by congruence.
      all: simpl in Hkeep; assert (¬ (rows h' < rows h0 ∨
             seats_in_row h' < seats_in_row h0)) by naive_solver; lia.
    + exists ms, h. by rewrite lookup_insert_ne.
  - destruct (session_destroy_store pk st) as [->|(ms & _ & -> & _)]; [done|].
    by apply in_hall_without_sessions.
  - destruct (movie_destroy_store pk st) as [->|(-> & _)]; [done|].
    eapply in_hall_frame; [..|by eapply in_hall_without_sessions]; done.
Qed.

Lemma sold_bound (st : Store) (pk : Z) (ms : MovieSession) (h : CinemaHall) :
  seat_unique st → in_hall st →
  movie_sessions st !! pk = Some ms → cinema_halls st !! cinema_hall ms = Some h →
  0 ≤ rows h * seats_in_row h →
  qs_count (session_tickets st pk) ≤ rows h * seats_in_row h.
Proof.
  intros Hu Hin Hms Hh Hcap. unfold qs_count.
  rewrite <-length_map_to_list.
  rewrite <-(length_fmap (λ kt : Z * Ticket, (row kt.2, seat kt.2))).
  apply seats_in_grid_bound; [| |done].
  - apply NoDup_fmap_2_strong; [|apply NoDup_map_to_list].
    intros [k1 t1] [k2 t2].
    rewrite !elem_of_map_to_list. unfold session_tickets.
    rewrite !map_lookup_filter_Some. simpl. intros [H1 Hs1] [H2 Hs2] [= Hr Hs].
    assert (k1 = k2) as -> by (eapply Hu; [exact H1|exact H2|congruence..]).
    congruence.
  - intros p ([k t] & -> & Hkt)%list_elem_of_fmap.
    apply elem_of_map_to_list in Hkt. unfold session_tickets in Hkt.
    apply map_lookup_filter_Some in Hkt as [Hk Hs]. simpl in *.
    destruct (Hin k t Hk) as (ms' & h' & Hms' & Hh' & ? & ?).
    rewrite Hs, Hms in Hms'. simplify_eq. done.
Qed.

Lemma keeping_halls_invariant (st0 st : Store) :
  tickets st0 = ∅ → reachable_keeping_halls st0 st → seat_unique st ∧ in_hall st.
Proof.
  intros Hempty. induction 1 as [|st req _ [IHu IHin] Hkeep].
  - split.
    + intros k1 k2 t1 t2 H1. by rewrite Hempty, lookup_empty in H1.
    + intros k t Hk. by rewrite Hempty, lookup_empty in Hk.
  - split; [by apply handle_seat_unique|by apply in_hall_preserved].
Qed.

(** C8, as the code has it: in every store reached from one without tickets
    by requests none of which shrinks the hall of a session - neither a
    hall update that takes rows or seats away, nor a session update that
    moves the session to a hall with fewer rows or fewer seats in a row -
    a session whose hall has rows * seats_in_row not negative has sold at
    most that many tickets, and its tickets_available, wherever the
    integers of the storage hold it, is not negative. *)
Theorem tickets_available_nonneg (st0 st : Store) (pk : Z) (a : AnnotatedSession) :
  tickets st0 = ∅ → reachable_keeping_halls st0 st →
  MovieSessionViewSet_queryset st !! pk = Some a →
  0 ≤ rows (session_hall a) * seats_in_row (session_hall a) →
  tickets_sold a ≤ rows (session_hall a) * seats_in_row (session_hall a) ∧
  (∀ available, tickets_available a = Some available → 0 ≤ available).
Proof.
  intros Hempty Hreach Hq Hcap.
  destruct (keeping_halls_invariant st0 st Hempty Hreach) as [Hu Hin].
  apply queryset_lookup in Hq as (ms & m & h & Hms & _ & Hh & ->).
  simpl in *. pose proof (sold_bound st pk ms h Hu Hin Hms Hh Hcap) as Hsold.
  split; [done|]. intros available.
  destruct (sql_integer (int_max db) _) as [c|] eqn:Hc; [|done]. simpl.
  apply sql_integer_inv in Hc as ->. intros ->%sql_integer_inv. lia.
Qed.

(** ** Listing orders *)

Lemma mapM_ext_elem_of {A B} (f g : A → option B) (l : list A) :
  (∀ x, x ∈ l → f x = g x) → mapM f l = mapM g l.
Proof.
  induction l as [|x l IH]; intros Hfg; [done|].
  cbn [mapM]. rewrite (Hfg x) by left. rewrite IH; [done|].
  intros y Hy. apply Hfg. by right.
Qed.

Lemma paginate_elem_of {A} (page_size number : Z) (l results : list A)
    (count : Z) (next previous : option Z) (x : A) :
  paginate page_size number l = Some (count, next, previous, results) →
  x ∈ results → x ∈ l.
Proof.
  unfold paginate. case_bool_decide; [done|]. intros [= _ _ _ <-] Hx.
  eapply subseteq_drop, subseteq_take, Hx.
Qed.

Lemma get_queryset_elem_of (uid : Z) (st : Store) (ko : Z * Order) :
  ko ∈ OrderViewSet_get_queryset uid st ↔
  orders st !! ko.1 = Some ko.2 ∧ user ko.2 = uid.
Proof.
  unfold OrderViewSet_get_queryset. rewrite merge_sort_Permutation.
  destruct ko as [k o]. rewrite elem_of_map_to_list, map_lookup_filter_Some.
  done.
Qed.

Lemma order_tickets_of_user (uid : Z) (st : Store) (ko : Z * Order) :
  orders st !! ko.1 = Some ko.2 → user ko.2 = uid →
  order_tickets st ko.1 = filter (λ kt, order kt.2 = ko.1) (user_tickets uid st).
Proof.
  intros Hko Hu. unfold order_tickets, user_tickets.
  rewrite map_filter_filter. apply map_filter_ext. intros k t Hk. simpl.
  split; [|by intros [? _]]. intros Ho. split; [done|]. by rewrite Ho, Hko, <-Hu.
Qed.

(** The list answer is a function of the user's own orders and tickets and
    of the catalogue. *)
Lemma list_depends_on_own_rows (uid page : Z) (st1 st2 : Store) :
  movies st1 = movies st2 → cinema_halls st1 = cinema_halls st2 →
  movie_sessions st1 = movie_sessions st2 →
  user_orders uid st1 = user_orders uid st2 →
  user_tickets uid st1 = user_tickets uid st2 →
  (OrderViewSet_list (User uid) page st1).1 =
  (OrderViewSet_list (User uid) page st2).1.
Proof.
  intros Hm Hh Hs Ho Ht. unfold OrderViewSet_list.
  assert (OrderViewSet_get_queryset uid st1 = OrderViewSet_get_queryset uid st2)
    as Hqs.
  { unfold OrderViewSet_get_queryset. fold (user_orders uid st1).
    fold (user_orders uid st2). by rewrite Ho. }
  rewrite <-Hqs.
  destruct (paginate _ _ _) as [[[[count next] previous] results]|] eqn:Hp;
    [|done].
  assert (mapM (order_list_data st1) results = mapM (order_list_data st2) results)
    as ->.
  { apply mapM_ext_elem_of. intros ko Hko.
    eapply paginate_elem_of in Hko; [|exact Hp].
    pose proof Hko as Hko2. rewrite Hqs in Hko2.
    apply get_queryset_elem_of in Hko as [Hk1 Hu1].
    apply get_queryset_elem_of in Hko2 as [Hk2 Hu2].
    unfold order_list_data.
    rewrite (order_tickets_of_user uid st1 ko Hk1 Hu1).
    rewrite (order_tickets_of_user uid st2 ko Hk2 Hu2), Ht.
    f_equal. apply mapM_ext. intros kt.
    unfold ticket_list_data, session_short. by rewrite Hm, Hh, Hs. }
  by destruct (mapM _ results).
Qed.

(** An order request of another user leaves the rows of [uid] alone. *)
Lemma other_user_keeps_own_rows (uid v : Z) (req : Request) (st : Store) :
  v ≠ uid → order_request_of v req →
  movies (handle req st).2 = movies st ∧
  cinema_halls (handle req st).2 = cinema_halls st ∧
  movie_sessions (handle req st).2 = movie_sessions st ∧
  user_orders uid (handle req st).2 = user_orders uid st ∧
  user_tickets uid (handle req st).2 = user_tickets uid st.
Proof.
  intros Hv Hreq.
  destruct req as [date mp|pk data|u page|u now data|u pk|partial u pk data
                  |data|pk|data|pk data|pk|pk]; simpl in *; try done.
  - unfold OrderViewSet_list. destruct u as [|v']; [done|].
    destruct (paginate _ _ _) as [[[[? ?] ?] results]|]; [|done].
    by destruct (mapM _ results).
  - destruct (create_view_cases u now data st)
      as [->|(v' & new & -> & _ & _ & Hnew & Hnd & Hfresh & ->)]; [done|].
    subst v'. cbn [snd movies cinema_halls movie_sessions].
    split_and!; [done..| |].
    + unfold user_orders. cbn [orders].
      apply map_filter_insert_not'; [simpl; congruence|].
      intros o. by rewrite next_pk_fresh.
    + unfold user_tickets. cbn [orders tickets].
      apply map_filter_strong_ext_1. intros k t. simpl.
      rewrite lookup_union_Some_raw. split.
      * intros [Hown [Hk|[_ Hk]]].
        -- destruct (new_ticket_lookup _ _ _ _ _ Hnd Hnew Hk) as (i & d & _ & _ & ->).
           simpl in Hown. rewrite lookup_insert_eq in Hown. simpl in Hown.
           congruence.
        -- split; [|done]. destruct (decide (order t = next_pk (orders st))) as [E|E].
           ++ rewrite E, lookup_insert_eq in Hown. simpl in Hown. congruence.
           ++ by rewrite lookup_insert_ne in Hown.
      * intros [Hown Hk]. split.
        -- rewrite lookup_insert_ne; [done|]. intros E.
           by rewrite <-E, next_pk_fresh in Hown.
        -- right. split; [|done]. apply not_elem_of_list_to_map_1.
           intros Hin. apply Hfresh in Hin. congruence.
  - unfold OrderViewSet_destroy. destruct u as [|v']; [done|]. subst v'.
    destruct (filter _ _ !! pk) as [o|] eqn:Hpk; [|done].
    apply map_lookup_filter_Some in Hpk as [Hpk Ho]. simpl in Ho.
    cbn [snd Order_delete movies cinema_halls movie_sessions].
    split_and!; [done..| |].
    + unfold user_orders. cbn [orders]. apply map_filter_delete_not.
      intros o' Ho'. simpl. congruence.
    + unfold user_tickets. cbn [orders tickets].
      apply map_filter_strong_ext_1. intros k t. simpl.
      rewrite map_lookup_filter_Some. simpl. split.
      * intros [Hown [Hk Hne]]. by rewrite lookup_delete_ne in Hown.
      * intros [Hown Hk].
        assert (order t ≠ pk) as Hne.
        { intros E. rewrite E, Hpk in Hown. simpl in Hown. congruence. }
        by rewrite lookup_delete_ne.
  - destruct u as [|v']; [done|]. subst v'.
    assert (∀ o0 o', orders st !! pk = Some o0 → user o0 = v → user o' = v →
              let st' := set_orders st (<[pk := o']> (orders st)) in
              user_orders uid st' = user_orders uid st ∧
              user_tickets uid st' = user_tickets uid st) as Hsame.
    { intros o0 o' Hpk Ho0 Ho'. simpl. split.
      - unfold user_orders. cbn [set_orders orders].
        apply map_filter_insert_not'; [simpl; congruence|].
        intros o Ho. simpl. congruence.
      - unfold user_tickets. cbn [set_orders orders tickets].
        apply map_filter_ext. intros k t Hk. simpl.
        destruct (decide (order t = pk)) as [->|Hne].
        + rewrite lookup_insert_eq, Hpk. simpl. by rewrite Ho0, Ho'.
        + by rewrite lookup_insert_ne. }
    destruct (order_update_store partial (User v) pk data st)
      as [->|(o0 & Hpk & [= Hu] & [->|(value & _ & _ & ->)])]; [done|..].
    + destruct (Hsame o0 o0 Hpk) as [? ?]; [done..|]. by split_and!.
    + destruct (Hsame o0 (mkOrder (user o0) value) Hpk) as [? ?]; [done..|].
      by split_and!.
Qed.

(** C10: the list action answers an authenticated user with orders of that
    user only: every order shown is an Order of the store whose user is the
    requesting one, and the answer is the same before and after any order
    request (list, create, update, destroy) of another user. An anonymous
    request is turned away. *)
Theorem order_list_own_orders_only (uid v page : Z) (req : Request) (st : Store) :
  v ≠ uid → order_request_of v req →
  (∀ p d, (OrderViewSet_list (User uid) page st).1 = HTTP_200 (OrderPageBody p) →
          d ∈ page_results p →
          ∃ o, orders st !! ol_id d = Some o ∧ user o = uid) ∧
  (OrderViewSet_list (User uid) page (handle req st).2).1 =
    (OrderViewSet_list (User uid) page st).1 ∧
  (OrderViewSet_list AnonymousUser page st).1 = HTTP_403.
Proof.
  intros Hv Hreq. split_and!; [| |done].
  - intros p d. unfold OrderViewSet_list.
    destruct (paginate _ _ _) as [[[[count next] previous] results]|] eqn:Hp;
      [|done].
    destruct (mapM _ results) as [ds|] eqn:Hds; [|done].
    intros [= <-]. simpl. intros Hd.
    apply mapM_Some in Hds. apply list_elem_of_lookup in Hd as [i Hi].
    destruct (Forall2_lookup_r _ _ _ _ _ Hds Hi) as (ko & Hko & Hdata).
    apply list_elem_of_lookup_2 in Hko.
    eapply paginate_elem_of in Hko; [|exact Hp].
    apply get_queryset_elem_of in Hko as [Hk Hu].
    unfold order_list_data in Hdata.
    destruct (mapM _ (map_to_list _)) as [ts|]; [|done].
    simpl in Hdata. injection Hdata as <-. simpl. eauto.
  - destruct (other_user_keeps_own_rows uid v req st Hv Hreq)
      as (Hm & Hh & Hs & Ho & Ht).
    by apply list_depends_on_own_rows.
Qed.

End StorageFacts.

(** * The theorems at work on the sample data *)

#[local] Abbreviation nc_order := (@no_constraints Order).
#[local] Abbreviation nc_ticket := (@no_constraints Ticket).

Lemma fk_sessions_demo_store : fk_sessions demo_store.
Proof.
  apply (bool_decide_unpack _). vm_compute. exact I.
Qed.

Lemma fk_sessions_sold_out_store : fk_sessions sold_out_store.
Proof. exact fk_sessions_demo_store. Qed.

Lemma seat_unique_demo_store : seat_unique demo_store.
Proof. intros k1 k2 t1 t2 H1. discriminate H1. Qed.

Lemma tickets_available_formula_witness :
  ∃ a, MovieSessionViewSet_queryset sqlite sold_out_store !! 1 = Some a ∧
       tickets_available a = Some (2 * 1 - 2).
Proof.
  destruct (tickets_available_formula sqlite sold_out_store 1
              (mkMovieSession 86400 1 1) (mkMovie "Heat" "Crime drama" 170)
              (mkCinemaHall "Blue" 2 1) None None)
    as [(a & Ha & Hav) _]; [reflexivity..|vm_compute; split; discriminate
                           |vm_compute; split; discriminate|].
  exists a. split; [exact Ha|]. exact Hav.
Defined.

Lemma out_of_range_seat_rejected_witness :
  ∃ e, is_validation_error e ∧
    OrderViewSet_create nc_order nc_ticket (User 7) 5
      [mkData 1 1 1; mkData 3 1 1] demo_store = (HTTP_400 e, demo_store).
Proof.
  eapply proj2.
  apply (out_of_range_seat_rejected nc_order nc_ticket 7 5
           [mkData 1 1 1; mkData 3 1 1] demo_store (mkData 3 1 1)
           (mkMovieSession 86400 1 1) (mkCinemaHall "Blue" 2 1)).
  - exact fk_sessions_demo_store.
  - right. left.
  - reflexivity.
  - reflexivity.
  - simpl. lia.
Defined.

Lemma taken_seat_rejected_witness :
  ∃ e, is_validation_error e ∧
    OrderViewSet_create nc_order nc_ticket (User 8) 9
      [mkData 2 1 1] sold_out_store = (HTTP_400 e, sold_out_store).
Proof.
  eapply proj2.
  apply (taken_seat_rejected nc_order nc_ticket 8 9 [mkData 2 1 1]
           sold_out_store (mkData 2 1 1)).
  - exact fk_sessions_sold_out_store.
  - left.
  - exists 2, (mkTicket 2 1 1 1). split; [reflexivity|]. simpl. lia.
Defined.

Lemma duplicate_tickets_rejected_witness :
  ∃ e, is_validation_error e ∧
    OrderViewSet_create nc_order nc_ticket (User 7) 5
      [mkData 1 1 1; mkData 2 1 1; mkData 1 1 1] demo_store
    = (HTTP_400 e, demo_store) ∧
    (Forall (λ d, ∃ a, run_child_validation demo_store d = inr a)
       [mkData 1 1 1; mkData 2 1 1; mkData 1 1 1] →
     e = ValidationError (Message "Duplicate tickets in request.")).
Proof.
  apply (duplicate_tickets_rejected nc_order nc_ticket 7 5
           [mkData 1 1 1; mkData 2 1 1; mkData 1 1 1] demo_store
           0%nat 2%nat (mkData 1 1 1)).
  - exact fk_sessions_demo_store.
  - lia.
  - reflexivity.
  - reflexivity.
Defined.


Lemma seat_unique_preserved_witness :
  seat_unique
    (handle nc_order nc_ticket sqlite demo_models
       (OrderCreate (User 7) 5 [mkData 1 1 1; mkData 2 1 1]) demo_store).2 ∧
  seat_unique
    (run nc_order nc_ticket sqlite demo_models
       [OrderCreate (User 7) 5 [mkData 1 1 1]; OrderDestroy (User 7) 1;
        OrderCreate (User 8) 6 [mkData 1 1 1]] demo_store).
Proof.
  apply (seat_unique_preserved nc_order nc_ticket sqlite demo_models). exact seat_unique_demo_store.
Defined.

Lemma tickets_available_nonneg_witness :
  let a := mkAnnotated (mkMovieSession 86400 1 1)
             (mkMovie "Heat" "Crime drama" 170) (mkCinemaHall "Blue" 2 1) 2
             (Some 2) (Some 0) in
  tickets_sold a ≤ rows (session_hall a) * seats_in_row (session_hall a) ∧
  (∀ available, tickets_available a = Some available → 0 ≤ available).
Proof.
  apply (tickets_available_nonneg nc_order nc_ticket sqlite demo_models demo_store
           (handle nc_order nc_ticket sqlite demo_models
              (OrderCreate (User 7) 5 [mkData 1 1 1; mkData 2 1 1]) demo_store).2
           1).
  - reflexivity.
  - apply keeping_step; [apply keeping_init|]. simpl. intros [].
  - vm_compute. reflexivity.
  - simpl. lia.
Defined.

Lemma order_list_own_orders_only_witness :
  let st := (handle nc_order nc_ticket sqlite demo_models
               (OrderCreate (User 7) 5 [mkData 1 1 1]) demo_store).2 in
  let req := OrderCreate (User 8) 6 [mkData 2 1 1] in
  orders (handle nc_order nc_ticket sqlite demo_models req st).2 !! 2 = Some (mkOrder 8 6) ∧
  (OrderViewSet_list (User 7) 1 (handle nc_order nc_ticket sqlite demo_models req st).2).1 =
  (OrderViewSet_list (User 7) 1 st).1.
Proof.
  intros st req. split; [vm_compute; reflexivity|].
  apply (order_list_own_orders_only nc_order nc_ticket sqlite demo_models 7 8 1 req st).
  - lia.
  - reflexivity.
Defined.

(** C1 as stated fails: a hall of 3037000500 rows of 3037000500 seats has
    9223372037000250000 places, more than the 9223372036854775807 that the
    integers of SQLite hold; with no ticket sold the tickets_available of
    its session is not that number: the product left the integers of the
    storage, which goes on with a rounded float. *)
Lemma tickets_available_leaves_the_integers :
  ∃ a, MovieSessionViewSet_queryset sqlite vast_hall_store !! 1 = Some a ∧
    rows (session_hall a) * seats_in_row (session_hall a) = 9223372037000250000 ∧
    tickets_sold a = 0 ∧
    tickets_available a ≠ Some (9223372037000250000 - 0) ∧
    tickets_available a = None.
Proof.
  eexists. split; [vm_compute; reflexivity|]. by split_and!.
Qed.

(** C8 as stated fails: user 7 buys both seats of the hall of two rows of
    one seat; then the hall is updated to one row, or the session is moved
    to a hall of one seat. Either way the session has two tickets sold in a
    hall of capacity one, and its tickets_available is -1. *)
Lemma hall_update_makes_availability_negative :
  let st := run nc_order nc_ticket sqlite demo_models
              [OrderCreate (User 7) 5 [mkData 1 1 1; mkData 2 1 1];
               HallUpdate 1 (mkCinemaHall "Blue" 1 1)] demo_store in
  let st' := run nc_order nc_ticket sqlite demo_models
               [OrderCreate (User 7) 5 [mkData 1 1 1; mkData 2 1 1];
                SessionUpdate 1 (mkMovieSession 86400 1 2)] two_halls_store in
  (tickets demo_store = ∅ ∧
   reachable nc_order nc_ticket sqlite demo_models demo_store st ∧
   tickets_available <$> MovieSessionViewSet_queryset sqlite st !! 1
     = Some (Some (-1))) ∧
  (tickets two_halls_store = ∅ ∧
   reachable nc_order nc_ticket sqlite demo_models two_halls_store st' ∧
   tickets_available <$> MovieSessionViewSet_queryset sqlite st' !! 1
     = Some (Some (-1))).
Proof.
  split; split_and!.
  - reflexivity.
  - apply (reachable_step nc_order nc_ticket sqlite demo_models demo_store _
             (HallUpdate 1 (mkCinemaHall "Blue" 1 1))).
    apply reachable_step, reachable_init.
  - vm_compute. reflexivity.
  - reflexivity.
  - apply (reachable_step nc_order nc_ticket sqlite demo_models two_halls_store _
             (SessionUpdate 1 (mkMovieSession 86400 1 2))).
    apply reachable_step, reachable_init.
  - vm_compute. reflexivity.
Qed.


(** * Further properties of the views and serializers *)

(** ** The order list: order and pages *)

Lemma newest_first_transitive : Transitive newest_first.
Proof. intros a b c. unfold newest_first. lia. Qed.

Lemma newest_first_total : Total newest_first.
Proof. intros a b. unfold newest_first. lia. Qed.

(** X1: [OrderViewSet.get_queryset] returns the orders of the user, each
    once, from the newest to the oldest: every order in the list was
    created no earlier than all the orders after it. *)
Theorem get_queryset_newest_first (uid : Z) (st : Store) :
  StronglySorted newest_first (OrderViewSet_get_queryset uid st) ∧
  NoDup (OrderViewSet_get_queryset uid st).*1 ∧
  (∀ i j ki kj oi oj, (i ≤ j)%nat →
     OrderViewSet_get_queryset uid st !! i = Some (ki, oi) →
     OrderViewSet_get_queryset uid st !! j = Some (kj, oj) →
     created_at oj ≤ created_at oi) ∧
  length (OrderViewSet_get_queryset uid st) = size (user_orders uid st).
Proof.
  assert (StronglySorted newest_first (OrderViewSet_get_queryset uid st)) as Hs.
  { apply (@StronglySorted_merge_sort _ _ _ newest_first_transitive
             newest_first_total). }
  split_and!.
  - exact Hs.
  - unfold OrderViewSet_get_queryset. rewrite merge_sort_Permutation.
    apply NoDup_fst_map_to_list.
  - intros i j ki kj oi oj Hij Hi Hj.
    destruct (decide (i = j)) as [->|Hne]; [by simplify_eq|].
    revert i j Hij Hne Hi Hj.
    induction Hs as [|x l Hs IH Hall]; intros i j Hij Hne Hi Hj; [done|].
    destruct i as [|i], j as [|j]; try lia; simpl in *.
    + simplify_eq. apply list_elem_of_lookup_2 in Hj.
      by apply (proj1 (Forall_forall _ _) Hall) in Hj.
    + apply (IH i j); [lia|lia|done|done].
  - unfold OrderViewSet_get_queryset, user_orders.
    by rewrite merge_sort_Permutation, length_map_to_list.
Qed.

(** A page of size one is the element at that position. *)
Lemma paginate_one_lookup {A} (l : list A) (i : nat) (x : A) :
  l !! i = Some x →
  paginate OrderPagination_page_size (Z.of_nat i + 1) l =
    Some (Z.of_nat (length l),
          (if bool_decide (Z.of_nat i + 1 < Z.of_nat (length l))
           then Some (Z.of_nat i + 2) else None),
          (if bool_decide (0 < Z.of_nat i) then Some (Z.of_nat i) else None),
          [x]).
Proof.
  intros Hi. pose proof (lookup_lt_Some _ _ _ Hi) as Hlt.
  unfold paginate, OrderPagination_page_size.
  replace ((Z.max 1 (Z.of_nat (length l)) + 1 - 1) `div` 1)
    with (Z.of_nat (length l)) by (rewrite Z.div_1_r; lia).
  rewrite bool_decide_eq_false_2 by lia.
  replace ((Z.of_nat i + 1 - 1) * 1) with (Z.of_nat i) by lia.
  replace ((Z.of_nat i + 1) `min` Z.of_nat (length l) - Z.of_nat i) with 1
    by lia.
  rewrite Nat2Z.id. change (Z.to_nat 1) with 1%nat.
  rewrite (drop_S _ _ _ Hi). simpl. rewrite take_0.
  replace (Z.of_nat i + 1 + 1) with (Z.of_nat i + 2) by lia.
  replace (Z.of_nat i + 1 - 1) with (Z.of_nat i) by lia.
  by rewrite (bool_decide_ext (Z.of_nat i + 1 > 1) (0 < Z.of_nat i)) by lia.
Qed.

Lemma paginate_one_None {A} (l : list A) (number : Z) :
  paginate OrderPagination_page_size number l = None ↔
  number < 1 ∨ number > Z.max 1 (Z.of_nat (length l)).
Proof.
  unfold paginate, OrderPagination_page_size.
  replace ((Z.max 1 (Z.of_nat (length l)) + 1 - 1) `div` 1)
    with (Z.max 1 (Z.of_nat (length l))) by (rewrite Z.div_1_r; lia).
  case_bool_decide; [done|]. split; [done|]. intros. lia.
Qed.

(** X2: with [OrderPagination], page i+1 of the order list shows exactly
    one order, the one at position i of the user's orders counted from the
    newest; [count] is the number of the user's orders, and [next] and
    [previous] are the neighbouring page numbers when they exist. *)
Theorem order_list_page_shows_one_order (uid : Z) (st : Store) (i : nat)
    (ko : Z * Order) (d : OrderListData) :
  OrderViewSet_get_queryset uid st !! i = Some ko →
  order_list_data st ko = Some d →
  OrderViewSet_list (User uid) (Z.of_nat i + 1) st =
    (HTTP_200 (OrderPageBody
       (mkOrderPage (Z.of_nat (size (user_orders uid st)))
          (if bool_decide (Z.of_nat i + 1 < Z.of_nat (size (user_orders uid st)))
           then Some (Z.of_nat i + 2) else None)
          (if bool_decide (0 < Z.of_nat i) then Some (Z.of_nat i) else None)
          [d])), st) ∧
  ol_id d = ko.1 ∧ ol_created_at d = created_at ko.2.
Proof.
  intros Hi Hd. unfold OrderViewSet_list.
  rewrite (paginate_one_lookup _ _ _ Hi).
  assert (length (OrderViewSet_get_queryset uid st) = size (user_orders uid st))
    as ->.
  { unfold OrderViewSet_get_queryset, user_orders.
    by rewrite merge_sort_Permutation, length_map_to_list. }
  cbn [mapM]. rewrite Hd. simpl. split; [done|].
  unfold order_list_data in Hd.
  destruct (mapM _ (map_to_list _)) as [ts|]; [|done].
  simpl in Hd. by injection Hd as <-.
Qed.

(** X3: the order list answers 404 exactly for the page numbers below 1 or
    above the number of the user's orders, page 1 excepted, which exists
    also when the user has no order and then shows an empty page. *)
Theorem order_list_page_not_found (uid page : Z) (st : Store) :
  ((OrderViewSet_list (User uid) page st).1 = HTTP_404 ↔
   page < 1 ∨ page > Z.max 1 (Z.of_nat (size (user_orders uid st)))) ∧
  (size (user_orders uid st) = 0%nat →
   OrderViewSet_list (User uid) 1 st =
     (HTTP_200 (OrderPageBody (mkOrderPage 0 None None [])), st)).
Proof.
  assert (length (OrderViewSet_get_queryset uid st) = size (user_orders uid st))
    as Hlen.
  { unfold OrderViewSet_get_queryset, user_orders.
    by rewrite merge_sort_Permutation, length_map_to_list. }
  split.
  - rewrite <-Hlen, <-paginate_one_None. unfold OrderViewSet_list.
    destruct (paginate _ _ _) as [[[[count next] previous] results]|]; [|done].
    destruct (mapM _ results); split; done.
  - intros Hzero. rewrite Hzero in Hlen.
    apply nil_length_inv in Hlen. unfold OrderViewSet_list. by rewrite Hlen.
Qed.

(** ** After a successful create *)

Section CreateFacts.

#[local] Set Default Proof Using "Type".

Variable order_constraints : Store → Order → bool.
Variable ticket_constraints : Store → Ticket → bool.
Variable db : Database.

#[local] Abbreviation bulk_create := (Ticket_objects_bulk_create ticket_constraints).
#[local] Abbreviation create := (create order_constraints ticket_constraints).
#[local] Abbreviation OrderViewSet_create :=
  (OrderViewSet_create order_constraints ticket_constraints).
#[local] Abbreviation MovieSessionViewSet_queryset := (MovieSessionViewSet_queryset db).

(** The submitted item a written ticket row came from. *)
Lemma ticket_row_data (pk : Z) (d : TicketData) :
  let t := mkTicket (data_row d) (data_seat d) (data_movie_session d) pk in
  mkData (row t) (seat t) (movie_session t) = d.
Proof. by destruct d. Qed.

(** A 201 answer tells that every item passed, that no key came twice, and
    what was written. *)
Lemma create_view_201 (u : RequestUser) (now : Z) (data : list TicketData)
    (st st' : Store) (body : Body) :
  OrderViewSet_create u now data st = (HTTP_201 body, st') →
  ∃ (uid : Z) (new : list (Z * Ticket)),
    let pk := next_pk (orders st) in
    u = User uid ∧
    Forall (λ d, ∃ a, run_child_validation st d = inr a) data ∧
    NoDup (data_key <$> data) ∧
    new.*2 = (λ d, mkTicket (data_row d) (data_seat d) (data_movie_session d) pk)
               <$> data ∧
    NoDup new.*1 ∧ (∀ k, k ∈ new.*1 → tickets st !! k = None) ∧
    st' = mkStore (movies st) (cinema_halls st) (movie_sessions st)
            (<[pk := mkOrder uid now]> (orders st))
            (list_to_map new ∪ tickets st) ∧
    body = order_create_data st' (pk, mkOrder uid now).
Proof.
  intros Hresp.
  destruct (create_view_cases order_constraints ticket_constraints u now data st)
    as [Hsame|(uid & new & -> & Hpass & Hkeys & Hnew & Hnd & Hfresh & Heq)].
  - exfalso. revert Hresp Hsame. unfold OrderViewSet_create.
    destruct u as [|uid]; [done|].
    destruct (is_valid st data) as [e|v]; [by destruct e|].
    destruct (create _ _ _ _) as [[e|ord] st1] eqn:Hc; [done|].
    apply create_ok in Hc as (uid' & _ & -> & ->).
    intros _ Hsame. simpl in Hsame. apply (f_equal orders) in Hsame.
    simpl in Hsame.
    pose proof (lookup_insert_eq (orders st) (next_pk (orders st))
                  (mkOrder uid' now)) as Habs.
    rewrite Hsame in Habs. by rewrite next_pk_fresh in Habs.
  - rewrite Heq in Hresp. injection Hresp as <- <-.
    exists uid, new. by split_and!.
Qed.

Lemma new_tickets_disjoint (new : list (Z * Ticket)) (m : gmap Z Ticket) :
  NoDup new.*1 → (∀ k, k ∈ new.*1 → m !! k = None) →
  (list_to_map new : gmap Z Ticket) ##ₘ m.
Proof.
  intros Hnd Hfresh. apply map_disjoint_spec. intros k t1 t2 Hk Hold.
  apply elem_of_list_to_map in Hk; [|done].
  assert (k ∈ new.*1) as Hin by (apply list_elem_of_fmap; by exists (k, t1)).
  apply Hfresh in Hin. congruence.
Qed.

(** Counting the written rows that a predicate on tickets keeps. *)
Lemma size_filter_new_tickets (P : Ticket → Prop) `{!∀ t, Decision (P t)}
    (new : list (Z * Ticket)) :
  NoDup new.*1 →
  size (filter (λ kt : Z * Ticket, P kt.2) (list_to_map new : gmap Z Ticket)) =
  length (filter P new.*2).
Proof.
  intros Hnd. rewrite size_filter_map_to_list.
  rewrite (map_to_list_to_map new Hnd).
  clear Hnd. induction new as [|[k t] new IH]; [done|].
  rewrite fmap_cons, !filter_cons. simpl.
  destruct (decide (P t)); simpl; by rewrite IH.
Qed.

(** X4: the 201 answer of the create action echoes the request: the
    tickets it shows are the submitted items, each once (in the order the
    storage lists them), under the key of the new order, which was free
    before, belongs to the requesting user and carries the creation time. *)
Theorem create_answer_echoes_request (u : RequestUser) (now : Z)
    (data : list TicketData) (st st' : Store) (pk c : Z) (ts : list TicketData) :
  fk_tickets st →
  OrderViewSet_create u now data st = (HTTP_201 (OrderCreateBody pk ts c), st') →
  ts ≡ₚ data ∧ c = now ∧ orders st !! pk = None ∧
  ∃ uid, u = User uid ∧ orders st' !! pk = Some (mkOrder uid now).
Proof.
  intros Hfk Hresp.
  apply create_view_201 in Hresp
    as (uid & new & -> & _ & _ & Hnew & Hnd & Hfresh & -> & Hbody).
  unfold order_create_data in Hbody. simpl in Hbody.
  injection Hbody as -> -> ->.
  split_and!; [|done|apply next_pk_fresh|].
  2: { exists uid. split; [done|]. simpl. apply lookup_insert_eq. }
  assert (order_tickets
            (mkStore (movies st) (cinema_halls st) (movie_sessions st)
               (<[next_pk (orders st) := mkOrder uid now]> (orders st))
               (list_to_map new ∪ tickets st)) (next_pk (orders st))
          = list_to_map new) as ->.
  { unfold order_tickets. simpl. apply map_eq. intros k. apply option_eq.
    intros t. rewrite map_lookup_filter_Some, lookup_union_Some_raw. simpl.
    split.
    - intros [[?|[_ Hold]] Ho]; [done|].
      destruct (Hfk _ _ Hold) as [o' Ho']. rewrite Ho in Ho'.
      by rewrite next_pk_fresh in Ho'.
    - intros Hk. split; [by left|].
      destruct (new_ticket_lookup _ _ _ _ _ Hnd Hnew Hk) as (i & d & _ & _ & ->).
      done. }
  rewrite (map_to_list_to_map new Hnd).
  assert ((λ kt : Z * Ticket, mkData (row kt.2) (seat kt.2) (movie_session kt.2))
            <$> new = data) as ->; [|done].
  transitivity ((λ t, mkData (row t) (seat t) (movie_session t)) <$> new.*2).
  { by rewrite <-list_fmap_compose. }
  rewrite Hnew, <-list_fmap_compose. rewrite <-(list_fmap_id data) at 2.
  apply list_fmap_ext. intros i d _. apply ticket_row_data.
Qed.

(** X5: after a 201 answer the new order is among the orders the list
    action pages through for that user, whose number has grown by one, and
    every order that was listed before is still listed. *)
Theorem created_order_is_listed (uid now : Z) (data : list TicketData)
    (st st' : Store) (body : Body) :
  OrderViewSet_create (User uid) now data st = (HTTP_201 body, st') →
  (∃ pk, (pk, mkOrder uid now) ∈ OrderViewSet_get_queryset uid st' ∧
         orders st !! pk = None) ∧
  length (OrderViewSet_get_queryset uid st') =
    S (length (OrderViewSet_get_queryset uid st)) ∧
  (∀ ko, ko ∈ OrderViewSet_get_queryset uid st →
         ko ∈ OrderViewSet_get_queryset uid st').
Proof.
  intros Hresp.
  apply create_view_201 in Hresp
    as (uid' & new & [= <-] & _ & _ & _ & _ & _ & -> & _).
  split_and!.
  - exists (next_pk (orders st)). split; [|apply next_pk_fresh].
    apply get_queryset_elem_of. simpl. by rewrite lookup_insert_eq.
  - unfold OrderViewSet_get_queryset. rewrite !merge_sort_Permutation.
    rewrite !length_map_to_list. simpl.
    rewrite map_filter_insert_True by done.
    apply map_size_insert_None, map_lookup_filter_None. left.
    apply next_pk_fresh.
  - intros [k o]. rewrite !get_queryset_elem_of. simpl. intros [Hk Hu].
    split; [|done]. rewrite lookup_insert_ne; [done|].
    intros <-. by rewrite next_pk_fresh in Hk.
Qed.

(** X6: a 201 answer raises the tickets sold of every session by the
    number of submitted items for that session, and of no other session;
    the capacity the storage computed stays; and a tickets_available that
    was an integer of the storage before is lowered by that number, where
    the lowered value still is one. *)
Theorem create_lowers_availability (u : RequestUser) (now : Z)
    (data : list TicketData) (st st' : Store) (body : Body) (s : Z)
    (a : AnnotatedSession) :
  OrderViewSet_create u now data st = (HTTP_201 body, st') →
  MovieSessionViewSet_queryset st !! s = Some a →
  let bought := Z.of_nat (length (filter (λ d, data_movie_session d = s) data)) in
  ∃ a', MovieSessionViewSet_queryset st' !! s = Some a' ∧
    hall_capacity a' = hall_capacity a ∧
    tickets_sold a' = tickets_sold a + bought ∧
    (∀ available, tickets_available a = Some available →
       - bigint_max db - 1 ≤ available - bought ≤ bigint_max db →
       tickets_available a' = Some (available - bought)).
Proof.
  intros Hresp Ha bought.
  apply create_view_201 in Hresp
    as (uid & new & -> & _ & _ & Hnew & Hnd & Hfresh & -> & _).
  apply queryset_lookup in Ha as (ms & m & h & Hms & Hm & Hh & ->).
  eexists. split; [apply queryset_lookup; by exists ms, m, h|].
  cbn [hall_capacity tickets_sold tickets_available].
  assert (qs_count (session_tickets
            (mkStore (movies st) (cinema_halls st) (movie_sessions st)
               (<[next_pk (orders st):=mkOrder uid now]> (orders st))
               (list_to_map new ∪ tickets st)) s) =
          qs_count (session_tickets st s) + bought) as ->.
  { unfold qs_count, session_tickets. simpl.
    rewrite map_filter_union by (by apply new_tickets_disjoint).
    rewrite map_size_disj_union
      by (apply map_disjoint_filter; by apply new_tickets_disjoint).
    pose proof (size_filter_new_tickets (λ t, movie_session t = s) new Hnd) as Hsz.
    simpl in Hsz. rewrite Hsz, Hnew.
    assert (length (filter (λ t, movie_session t = s)
              ((λ d, mkTicket (data_row d) (data_seat d) (data_movie_session d)
                       (next_pk (orders st))) <$> data)) =
            length (filter (λ d, data_movie_session d = s) data)) as ->;
      [|unfold bought; lia].
    clear. induction data as [|d data IH]; [done|].
    rewrite fmap_cons, !filter_cons. simpl.
    destruct (decide (data_movie_session d = s)); simpl; by rewrite IH. }
  split_and!; [done..|].
  intros available.
  destruct (sql_integer (int_max db) _) as [c|]; [|done]. simpl.
  intros ->%sql_integer_inv Hrange.
  replace (c - (qs_count (session_tickets st s) + bought))
    with (c - qs_count (session_tickets st s) - bought) by lia.
  by apply sql_integer_Some.
Qed.

(** X7: a seat sold by a 201 answer is refused for as long as its ticket
    is in the store: in the store the answer left, and in every later
    store that still holds the tickets of that store, a create request, of
    whatever user, that contains one of the items just bought is answered
    with a validation error and writes nothing. *)
Theorem sold_seat_refused_while_ticket_stays (u : RequestUser) (now : Z)
    (data : list TicketData) (st st' st2 : Store) (body : Body)
    (uid2 now2 : Z) (data2 : list TicketData) (d : TicketData) :
  OrderViewSet_create u now data st = (HTTP_201 body, st') →
  tickets st' ⊆ tickets st2 → fk_sessions st2 →
  d ∈ data → d ∈ data2 →
  ∃ e, is_validation_error e ∧
    OrderViewSet_create (User uid2) now2 data2 st2 = (HTTP_400 e, st2).
Proof.
  intros Hresp Hstays Hfk Hd Hd2.
  apply create_view_201 in Hresp
    as (uid & new & -> & _ & _ & Hnew & Hnd & Hfresh & -> & _).
  apply (item_refused_400 order_constraints ticket_constraints) with d;
    [exact Hfk|done|].
  intros a (_ & _ & _ & _ & _ & _ & _ & Hfree)%run_child_validation_inr.
  apply Hfree. apply list_elem_of_lookup in Hd as [i Hi].
  assert (new.*2 !! i =
          Some (mkTicket (data_row d) (data_seat d) (data_movie_session d)
                  (next_pk (orders st)))) as Ht.
  { by rewrite Hnew, list_lookup_fmap, Hi. }
  rewrite list_lookup_fmap in Ht.
  destruct (new !! i) as [[k t]|] eqn:Hkt; [|done]. simpl in Ht.
  injection Ht as ->.
  exists k, (mkTicket (data_row d) (data_seat d) (data_movie_session d)
               (next_pk (orders st))).
  split; [|done]. eapply lookup_weaken; [|exact Hstays].
  simpl. apply lookup_union_Some_raw. left.
  apply elem_of_list_to_map; [done|]. by eapply list_elem_of_lookup_2.
Qed.

Lemma tickets_run_validation_inr (st : Store) (data : list TicketData)
    (v : list TicketAttrs) :
  tickets_run_validation st data = inr v →
  Forall2 (λ d a, run_child_validation st d = inr a) data v.
Proof.
  unfold tickets_run_validation.
  destruct (validate_items st data) as [e|[ret errors]] eqn:Hitems; [done|].
  destruct (any_errors errors) eqn:Herr; [done|].
  intros [= <-]. by eapply validate_items_inr.
Qed.

Lemma bulk_create_accepts (objs : list Ticket) (st : Store) :
  (∀ s t, ticket_constraints s t = true) →
  bulk_create objs st = (inr tt, set_tickets st (insert_rows objs (tickets st))).
Proof.
  intros Hacc. revert st. induction objs as [|t objs IH]; intros st; simpl.
  - unfold ret. by destruct st.
  - unfold bind, Ticket_insert. rewrite Hacc, IH. by destruct st.
Qed.

(** X8: when the storage refuses no row, validation is the only gate of the
    create action: an authenticated request is answered 201 exactly when
    every item names an existing session, lies inside the hall of that
    session, is for a seat nobody holds, and no (session, row, seat) comes
    twice in the request. *)
Theorem create_succeeds_iff_valid (uid now : Z) (data : list TicketData)
    (st : Store) :
  (∀ s o, order_constraints s o = true) →
  (∀ s t, ticket_constraints s t = true) →
  (∃ body st', OrderViewSet_create (User uid) now data st = (HTTP_201 body, st')) ↔
  Forall (λ d, ∃ ms h,
            movie_sessions st !! data_movie_session d = Some ms ∧
            cinema_halls st !! cinema_hall ms = Some h ∧
            1 ≤ data_row d ≤ rows h ∧ 1 ≤ data_seat d ≤ seats_in_row h ∧
            ¬ taken st (data_movie_session d) (data_row d) (data_seat d)) data ∧
  NoDup (data_key <$> data).
Proof.
  intros Hoacc Htacc. split.
  - intros (body & st' & Hresp).
    apply create_view_201 in Hresp as (uid' & new & _ & Hpass & Hkeys & _).
    split; [|done]. eapply Forall_impl; [exact Hpass|]. simpl.
    intros d [a (ms & h & ? & ? & _ & ? & ? & ?)%run_child_validation_inr].
    by exists ms, h.
  - intros [Hpass Hkeys].
    assert (Forall (λ d, ∃ a, run_child_validation st d = inr a) data) as Hpass'.
    { eapply Forall_impl; [exact Hpass|]. simpl.
      intros d (ms & h & ? & ? & ? & ? & ?). eexists.
      apply run_child_validation_inr. by exists ms, h. }
    destruct (tickets_run_validation_pass st data Hpass') as [v Hv].
    pose proof (tickets_run_validation_inr st data v Hv) as Hall.
    unfold OrderViewSet_create, is_valid, validate_tickets. rewrite Hv.
    assert (validate_tickets_loop ∅ v = inr tt) as ->.
    { apply validate_tickets_loop_inr.
      rewrite (ticket_key_data_key st data v Hall). split; [done|].
      intros k _. apply not_elem_of_empty. }
    unfold create, atomic, bind, Order_objects_create.
    rewrite Hoacc, bulk_create_accepts by done. unfold ret. by eexists _, _.
Qed.

(** X9: the create action takes an empty ticket list: for an authenticated
    user, when the storage refuses no row, it answers 201 and writes an
    order without tickets, leaving every ticket as it was. *)
Theorem empty_order_is_created (uid now : Z) (st : Store) :
  (∀ s o, order_constraints s o = true) →
  fk_tickets st →
  OrderViewSet_create (User uid) now [] st =
    (HTTP_201 (OrderCreateBody (next_pk (orders st)) [] now),
     set_orders st (<[next_pk (orders st) := mkOrder uid now]> (orders st))).
Proof.
  intros Hoacc Hfk. unfold OrderViewSet_create. simpl.
  unfold create, atomic, bind, Order_objects_create. rewrite Hoacc. simpl.
  unfold ret, order_create_data, order_tickets. simpl.
  assert (filter (λ kt : Z * Ticket, order kt.2 = next_pk (orders st)) (tickets st)
          = ∅) as ->.
  { apply map_empty_filter_2. intros k t Hk Ho. simpl in Ho.
    destruct (Hfk k t Hk) as [o Hsome]. rewrite Ho in Hsome.
    by rewrite next_pk_fresh in Hsome. }
  rewrite map_to_list_empty. by destruct st.
Qed.

End CreateFacts.

(** ** The error report of an invalid request *)

Lemma validate_items_aligned (st : Store) (data : list TicketData)
    (ret : list TicketAttrs) (errors : list ErrorDetail) :
  validate_items st data = inr (ret, errors) →
  length errors = length data ∧
  ∀ i d, data !! i = Some d →
    (errors !! i = Some NoErrors ↔ ∃ a, run_child_validation st d = inr a) ∧
    (∀ detail, run_child_validation st d = inl (ValidationError detail) →
               errors !! i = Some detail).
Proof.
  revert ret errors. induction data as [|d0 data IH]; intros ret errors; simpl.
  - intros [= <- <-]. split; [done|]. intros i d Hi. done.
  - destruct (run_child_validation st d0) as [e|a0] eqn:Hd0.
    + destruct e as [detail| | | | | | |]; try done.
      destruct (validate_items st data) as [e'|[ret' errors']]; [done|].
      intros [= <- <-]. destruct (IH _ _ eq_refl) as [Hlen Hat].
      split; [simpl; by rewrite Hlen|].
      intros [|i] d Hi; simpl in *.
      * injection Hi as <-. rewrite Hd0. split.
        -- split; [|by intros [a ?]]. intros [= ->].
           by destruct (run_child_validation_inl_ne st d0).
        -- by intros detail' [= <-].
      * by apply Hat.
    + destruct (validate_items st data) as [e'|[ret' errors']]; [done|].
      intros [= <- <-]. destruct (IH _ _ eq_refl) as [Hlen Hat].
      split; [simpl; by rewrite Hlen|].
      intros [|i] d Hi; simpl in *.
      * injection Hi as <-. rewrite Hd0. split; [|done].
        split; [by exists a0|done].
      * by apply Hat.
Qed.

(** X10: when item validation refuses a request, the error list of the
    answer has one entry per submitted item, in the order of the request:
    the empty entry exactly where the item passed, and where [validate]
    raised, the detail it raised. At least one entry is not empty. *)
Theorem item_errors_follow_the_request (st : Store) (data : list TicketData)
    (ds : list ErrorDetail) :
  is_valid st data = inl (ItemErrors ds) →
  length ds = length data ∧
  (∀ i d, data !! i = Some d →
     (ds !! i = Some NoErrors ↔ ∃ a, run_child_validation st d = inr a) ∧
     (∀ detail, run_child_validation st d = inl (ValidationError detail) →
                ds !! i = Some detail)) ∧
  ∃ i detail, ds !! i = Some detail ∧ detail ≠ NoErrors.
Proof.
  unfold is_valid, tickets_run_validation.
  destruct (validate_items st data) as [e|[ret errors]] eqn:Hitems.
  - intros [= ->]. exfalso. revert Hitems. clear.
    revert ds. induction data as [|d data IH]; intros ds; simpl; [done|].
    destruct (run_child_validation st d) as [e|a] eqn:Hd.
    + destruct e as [detail|ds'| | | | | |]; try done.
      * destruct (validate_items st data) as [e'|[ret' errors']] eqn:Hrec;
          [|done]. intros [= ->]. by eapply IH.
      * intros _. revert Hd. unfold run_child_validation, to_internal_value, validate.
        destruct (movie_sessions st !! data_movie_session d) as [ms|]; simpl;
          [|done].
        destruct (cinema_halls st !! cinema_hall ms) as [h|]; [|done].
        case_bool_decide; [done|]. case_bool_decide; [done|].
        by destruct (qs_exists _).
    + destruct (validate_items st data) as [e'|[ret' errors']] eqn:Hrec; [|done].
      intros [= ->]. by eapply IH.
  - destruct (any_errors errors) eqn:Herr.
    + intros [= <-]. destruct (validate_items_aligned _ _ _ _ Hitems) as [Hlen Hat].
      split_and!; [done|done|].
      unfold any_errors in Herr. apply existsb_exists in Herr as (detail & Hin & Hne).
      apply list_elem_of_In, list_elem_of_lookup in Hin as [i Hi].
      exists i, detail. split; [done|]. by intros ->.
    + unfold validate_tickets.
      destruct (validate_tickets_loop ∅ ret) as [e|[]] eqn:Hloop; [|done].
      apply validate_tickets_loop_inl in Hloop as ->. done.
Qed.

(** ** Stripping and names *)

Lemma lstrip_head (s : string) (c : ascii) (r : string) :
  lstrip s = String c r → isspace c = false.
Proof.
  induction s as [|c' s IH]; simpl; [done|].
  destruct (isspace c') eqn:Hc'; [done|]. by intros [= <- _].
Qed.

Lemma lstrip_id (s : string) :
  (∀ c r, s = String c r → isspace c = false) → lstrip s = s.
Proof.
  destruct s as [|c s]; [done|]. intros H. simpl. by rewrite (H c s).
Qed.

Lemma rstrip_head (s : string) (c : ascii) (r : string) :
  rstrip s = String c r → ∃ s', s = String c s'.
Proof.
  destruct s as [|c' s]; simpl; [done|].
  destruct (rstrip s); [destruct (isspace c'); [done|]|]; intros [= <- _]; eauto.
Qed.

Lemma rstrip_idemp (s : string) : rstrip (rstrip s) = rstrip s.
Proof.
  induction s as [|c s IH]; simpl; [done|].
  destruct (rstrip s) as [|c' r] eqn:Hr.
  - destruct (isspace c) eqn:Hc; simpl; [done|]. by rewrite Hc.
  - simpl in *. by rewrite IH.
Qed.

Lemma rstrip_app (a b : string) :
  rstrip (a +:+ b) =
  match rstrip b with
  | EmptyString => rstrip a
  | r => a +:+ r
  end.
Proof.
  induction a as [|c a IH].
  - change (EmptyString +:+ b) with b. by destruct (rstrip b).
  - change (String c a +:+ b) with (String c (a +:+ b)). simpl. rewrite IH.
    destruct (rstrip b) as [|c' r]; [done|]. by destruct a.
Qed.

Lemma strip_head (s : string) (c : ascii) (r : string) :
  strip s = String c r → isspace c = false.
Proof.
  unfold strip. intros H. destruct (rstrip_head _ _ _ H) as [s' Hs'].
  by apply lstrip_head in Hs'.
Qed.

Lemma strip_rstrip (s : string) : rstrip (strip s) = strip s.
Proof. unfold strip. apply rstrip_idemp. Qed.

Lemma strip_lstrip (s : string) : lstrip (strip s) = strip s.
Proof. apply lstrip_id. intros c r. apply strip_head. Qed.

(** The last character of a string that [rstrip] leaves alone, if it has
    one, is no white space. *)
Lemma rstrip_last (s r : string) (c : ascii) :
  rstrip s = r +:+ String c EmptyString → isspace c = false.
Proof.
  revert r. induction s as [|c' s IH]; intros r; simpl.
  - by destruct r.
  - destruct (rstrip s) as [|c'' r'] eqn:Hr.
    + destruct (isspace c') eqn:Hc'; [by destruct r|].
      destruct r as [|c0 r0].
      * change (EmptyString +:+ String c EmptyString) with (String c EmptyString).
        by intros [= <-].
      * change (String c0 r0 +:+ String c EmptyString)
          with (String c0 (r0 +:+ String c EmptyString)).
        intros [= _ Habs]. by destruct r0.
    + destruct r as [|c0 r0].
      * change (EmptyString +:+ String c EmptyString) with (String c EmptyString).
        done.
      * change (String c0 r0 +:+ String c EmptyString)
          with (String c0 (r0 +:+ String c EmptyString)).
        intros [= <- Hrest]. by apply (IH r0).
Qed.

(** X11: the full name of an actor never carries a space that a missing
    part would leave: with both parts blank it is empty, with one part
    blank it is the other part stripped, and otherwise it is the stripped
    first name, one space and the stripped last name. It neither starts nor
    ends with white space. *)
Theorem get_full_name_cases (obj : Actor) :
  let first := strip (or_empty (first_name obj)) in
  let last := strip (or_empty (last_name obj)) in
  get_full_name obj =
    match first, last with
    | EmptyString, _ => last
    | _, EmptyString => first
    | _, _ => first +:+ " " +:+ last
    end ∧
  (∀ c r, get_full_name obj = String c r → isspace c = false) ∧
  (∀ c r, get_full_name obj = r +:+ String c EmptyString → isspace c = false).
Proof.
  intros first last. split_and!.
  - unfold get_full_name. fold first last.
    pose proof (strip_rstrip (or_empty (last_name obj))) as Hl. fold last in Hl.
    pose proof (strip_lstrip (or_empty (last_name obj))) as Hl'. fold last in Hl'.
    pose proof (strip_rstrip (or_empty (first_name obj))) as Hf. fold first in Hf.
    pose proof (strip_head (or_empty (first_name obj))) as Hf'. fold first in Hf'.
    destruct first as [|c f].
    + change (EmptyString +:+ " " +:+ last) with (String " " last).
      unfold strip at 1. change (lstrip (String " " last)) with (lstrip last).
      by rewrite Hl', Hl.
    + unfold strip at 1.
      change (String c f +:+ " " +:+ last)
        with (String c (f +:+ " " +:+ last)).
      simpl lstrip. rewrite (Hf' c f eq_refl).
      change (String c (f +:+ " " +:+ last))
        with (String c f +:+ (String " " EmptyString +:+ last)).
      rewrite rstrip_app, rstrip_app, Hl. destruct last as [|c' l]; [|done].
      change (rstrip (String " " EmptyString)) with EmptyString. exact Hf.
  - intros c r. unfold get_full_name. apply strip_head.
  - intros c r. unfold get_full_name, strip. apply rstrip_last.
Qed.

(** X12: the actor names of the movie list are the full names of the actor
    serializer, one per actor and in the order of the actors. *)
Theorem get_actors_full_names (qs : list Actor) :
  get_actors qs = get_full_name <$> qs.
Proof.
  unfold get_actors.
  assert (∀ result, get_actors_loop qs result = result ++ (get_full_name <$> qs))
    as H; [|by rewrite H].
  induction qs as [|actor qs IH]; intros result; simpl.
  - by rewrite app_nil_r.
  - rewrite IH, <-app_assoc. done.
Qed.

(** ** Parsing lists of keys *)

#[local] Abbreviation chars := String.list_ascii_of_string.

Lemma uint_of_char_is_Some (a : ascii) (d : Decimal.uint) :
  is_Some (DecimalString.uint_of_char a (Some d)) ↔ isdecimal a = true.
Proof.
  destruct a as [[|] [|] [|] [|] [|] [|] [|] [|]]; vm_compute;
    split; (by intros [? [=]]) || (by intros [=]) || eauto.
Qed.

Lemma uint_of_string_is_Some (s : string) :
  is_Some (DecimalString.NilEmpty.uint_of_string s) ↔
  forallb isdecimal (chars s) = true.
Proof.
  induction s as [|a s IH]; simpl; [by split; eauto|].
  rewrite andb_true_iff, <-IH. split.
  - intros [d Hd].
    destruct (DecimalString.NilEmpty.uint_of_string s) as [d'|]; [|done].
    split; [|by eauto]. apply (uint_of_char_is_Some a d'). by eauto.
  - intros [Ha [d' ->]]. by apply uint_of_char_is_Some.
Qed.

Lemma int_of_digits_is_Some (s : string) :
  s ≠ EmptyString →
  is_Some (int_of_digits s) ↔ forallb isdecimal (chars s) = true.
Proof.
  intros Hne. rewrite <-uint_of_string_is_Some. unfold int_of_digits.
  rewrite fmap_is_Some. by destruct s.
Qed.

Lemma int_of_digits_nonneg (s : string) (n : Z) :
  int_of_digits s = Some n → 0 ≤ n.
Proof.
  unfold int_of_digits.
  destruct (DecimalString.NilZero.uint_of_string s); intros [= <-]. lia.
Qed.

Lemma str_isdigit_nonempty (s : string) :
  str_isdigit s = true → s ≠ EmptyString.
Proof. by destruct s. Qed.

Lemma forallb_false_elem_of {A} (f : A → bool) (l : list A) :
  forallb f l = false → ∃ x, x ∈ l ∧ f x = false.
Proof.
  induction l as [|x l IH]; simpl; [done|].
  destruct (f x) eqn:Hx; simpl.
  - intros (y & ? & ?)%IH. exists y. split; [by right|done].
  - intros _. exists x. split; [by left|done].
Qed.

(** [parse_parts] raises exactly at a part that [isdigit] accepts and
    [int] does not. *)
Lemma parse_parts_None (parts : list string) :
  parse_parts parts = None ↔
  ∃ part, part ∈ parts ∧ str_isdigit (strip part) = true ∧
          ∃ c, c ∈ chars (strip part) ∧ isdecimal c = false.
Proof.
  induction parts as [|part parts IH]; simpl.
  - split; [done|]. by intros (? & ?%not_elem_of_nil & _).
  - destruct (str_isdigit (strip part)) eqn:Hd.
    + pose proof (int_of_digits_is_Some (strip part)
                    (str_isdigit_nonempty _ Hd)) as Hint.
      destruct (int_of_digits (strip part)) as [n|] eqn:Hn; simpl.
      * destruct (parse_parts parts) as [l|] eqn:Hl; simpl.
        -- split; [done|]. intros (p & [->|Hin]%elem_of_cons & Hp & c & Hc & Hnd).
           ++ assert (forallb isdecimal (chars (strip part)) = true) as Hall
                by (apply Hint; eauto).
              rewrite forallb_forall in Hall.
              apply list_elem_of_In, Hall in Hc. congruence.
           ++ assert (Some l = None) as Habs; [|done].
              apply IH. exists p. eauto.
        -- split; [|done]. intros _.
           destruct (proj1 IH eq_refl) as (p & Hin & Hp). exists p.
           split; [by right|done].
      * split; [|done]. intros _. exists part. split; [by left|].
        split; [done|].
        destruct (forallb isdecimal (chars (strip part))) eqn:Hall.
        -- destruct (proj2 Hint eq_refl) as [? [=]].
        -- by apply forallb_false_elem_of in Hall.
    + rewrite IH. split.
      * intros (p & Hin & Hp). exists p. split; [by right|done].
      * intros (p & [->|Hin]%elem_of_cons & Hp & Hc); [congruence|].
        by exists p.
Qed.

Lemma lstrip_chars (s : string) (c : ascii) :
  c ∈ chars (lstrip s) → c ∈ chars s.
Proof.
  induction s as [|c' s IH]; simpl; [done|].
  destruct (isspace c'); [|done]. intros Hc. right. by apply IH.
Qed.

Lemma rstrip_chars (s : string) (c : ascii) :
  c ∈ chars (rstrip s) → c ∈ chars s.
Proof.
  induction s as [|c' s IH]; simpl; [done|].
  destruct (rstrip s) as [|c'' r].
  - destruct (isspace c'); simpl; [by intros ?%not_elem_of_nil|].
    intros [->|?%not_elem_of_nil]%elem_of_cons; [by left|done].
  - intros [->|Hc]%elem_of_cons; [by left|]. right. by apply IH.
Qed.

Lemma strip_chars (s : string) (c : ascii) :
  c ∈ chars (strip s) → c ∈ chars s.
Proof. unfold strip. intros Hc. by apply lstrip_chars, rstrip_chars. Qed.

Lemma split_comma_chars (s part : string) (c : ascii) :
  part ∈ split_comma s → c ∈ chars part → c ∈ chars s.
Proof.
  revert part. induction s as [|c' s IH]; intros part; simpl.
  - intros ->%list_elem_of_singleton. done.
  - destruct (split_comma s) as [|p ps]; [by intros ?%not_elem_of_nil|].
    destruct (Ascii.eqb c' ","%char).
    + intros [->|Hin]%elem_of_cons Hc; [by apply not_elem_of_nil in Hc|].
      right. by apply (IH part).
    + intros [->|Hin]%elem_of_cons Hc.
      * simpl in Hc. apply elem_of_cons in Hc as [->|Hc]; [by left|].
        right. apply (IH p); [by left|done].
      * right. apply (IH part); [by right|done].
Qed.

Lemma str_isdigit_chars (s : string) (c : ascii) :
  str_isdigit s = true → c ∈ chars s → isdigit c = true.
Proof.
  intros Hs Hc. destruct s as [|c0 s0]; [done|]. unfold str_isdigit in Hs.
  rewrite forallb_forall in Hs. by apply Hs, list_elem_of_In.
Qed.

Lemma isdigit_not_decimal (c : ascii) :
  isdigit c = true → isdecimal c = false →
  (N_of_ascii c = 178 ∨ N_of_ascii c = 179 ∨ N_of_ascii c = 185)%N.
Proof.
  unfold isdigit. intros Hd Hnd. rewrite Hnd in Hd. simpl in Hd.
  rewrite !orb_true_iff, !N.eqb_eq in Hd. tauto.
Qed.

Lemma parse_parts_Some (parts : list string) (ids : list Z) :
  parse_parts parts = Some ids →
  Forall (λ n, 0 ≤ n) ids ∧ (length ids ≤ length parts)%nat.
Proof.
  revert ids. induction parts as [|part parts IH]; intros ids; simpl.
  - intros [= <-]. split; [constructor|done].
  - destruct (str_isdigit (strip part)).
    + destruct (int_of_digits (strip part)) as [n|] eqn:Hn; [|done]. simpl.
      destruct (parse_parts parts) as [l|]; [|done]. simpl. intros [= <-].
      destruct (IH l eq_refl) as [Hall Hlen]. split.
      * constructor; [by eapply int_of_digits_nonneg|done].
      * simpl. lia.
    + intros Hids. destruct (IH ids Hids) as [Hall Hlen]. split; [done|lia].
Qed.

Lemma parse_int_list_None (value : string) :
  _parse_int_list value = None ↔
  ∃ part c, part ∈ split_comma value ∧ str_isdigit (strip part) = true ∧
    c ∈ chars (strip part) ∧
    (N_of_ascii c = 178 ∨ N_of_ascii c = 179 ∨ N_of_ascii c = 185)%N.
Proof.
  unfold _parse_int_list. rewrite parse_parts_None. split.
  - intros (part & Hin & Hd & c & Hc & Hnd). exists part, c.
    split_and!; [done..|]. apply isdigit_not_decimal; [|done].
    by eapply str_isdigit_chars.
  - intros (part & c & Hin & Hd & Hc & Hcode). exists part.
    split_and!; [done..|]. exists c. split; [done|].
    unfold isdecimal. destruct Hcode as [->| [->| ->]]; done.
Qed.

(** X13: [_parse_int_list] raises [ValueError] exactly when some part of
    the text between commas, stripped, is a run of digits in the sense of
    [isdigit] that holds a superscript two, three or one: [isdigit] takes
    these, [int] does not. (For texts within the interpreter's limit of 4300
    digits for a number.) *)
Theorem parse_int_list_raises (value : string) :
  (String.length value ≤ 4300)%nat →
  _parse_int_list value = None ↔
  ∃ part c, part ∈ split_comma value ∧ str_isdigit (strip part) = true ∧
    c ∈ chars (strip part) ∧
    (N_of_ascii c = 178 ∨ N_of_ascii c = 179 ∨ N_of_ascii c = 185)%N.
Proof. intros _. apply parse_int_list_None. Qed.

(** X14: on a text of ASCII characters [_parse_int_list] never raises; the
    numbers it returns are not negative, and they are at most as many as
    the parts between commas. (For texts within the limit of 4300 digits.) *)
Theorem parse_int_list_ascii (value : string) :
  (String.length value ≤ 4300)%nat →
  Forall (λ c, (N_of_ascii c < 128)%N) (chars value) →
  ∃ ids, _parse_int_list value = Some ids ∧
    Forall (λ n, 0 ≤ n) ids ∧ (length ids ≤ length (split_comma value))%nat.
Proof.
  intros Hlen Hascii.
  destruct (_parse_int_list value) as [ids|] eqn:Hp.
  - exists ids. split; [done|]. by apply parse_parts_Some.
  - exfalso. apply (parse_int_list_None value) in Hp
      as (part & c & Hin & _ & Hc & Hcode).
    apply strip_chars in Hc. eapply split_comma_chars in Hc; [|exact Hin].
    rewrite Forall_forall in Hascii. apply Hascii in Hc. lia.
Qed.

Lemma isdecimal_facts (c : ascii) :
  isdecimal c = true →
  isspace c = false ∧ isdigit c = true ∧ Ascii.eqb c ","%char = false.
Proof.
  destruct c as [[|] [|] [|] [|] [|] [|] [|] [|]]; vm_compute; done.
Qed.

Lemma string_of_uint_decimal (d : Decimal.uint) :
  forallb isdecimal (chars (DecimalString.NilEmpty.string_of_uint d)) = true.
Proof. induction d; simpl; by rewrite ?IHd. Qed.

Lemma decimal_chars (n : N) :
  decimal n ≠ EmptyString ∧ forallb isdecimal (chars (decimal n)) = true.
Proof.
  unfold decimal, DecimalString.NilZero.string_of_uint.
  destruct (N.to_uint n) as [|d|d|d|d|d|d|d|d|d|d] eqn:Hn;
    (split; [done|]); try apply (string_of_uint_decimal (_ d)).
  done.
Qed.

Lemma int_of_digits_decimal (n : N) : int_of_digits (decimal n) = Some (Z.of_N n).
Proof.
  unfold int_of_digits, decimal. destruct n as [|p]; [done|].
  rewrite DecimalString.NilZero.usu
    by apply DecimalPos.Unsigned.to_uint_nonnil.
  change (Some (Z.of_N (N.of_uint (N.to_uint (N.pos p)))) = Some (Z.of_N (N.pos p))).
  by rewrite DecimalN.Unsigned.of_to.
Qed.

Lemma lstrip_no_space (s : string) :
  forallb (λ c, negb (isspace c)) (chars s) = true → lstrip s = s.
Proof.
  destruct s as [|c s]; simpl; [done|].
  rewrite andb_true_iff. intros [Hc _]. by destruct (isspace c).
Qed.

Lemma rstrip_no_space (s : string) :
  forallb (λ c, negb (isspace c)) (chars s) = true → rstrip s = s.
Proof.
  induction s as [|c s IH]; simpl; [done|].
  rewrite andb_true_iff. intros [Hc Hs]. rewrite (IH Hs).
  destruct s; [|done]. by destruct (isspace c).
Qed.

Lemma forallb_decimal_impl (f : ascii → bool) (l : list ascii) :
  (∀ c, isdecimal c = true → f c = true) →
  forallb isdecimal l = true → forallb f l = true.
Proof.
  intros Himpl. rewrite !forallb_forall. intros Hall c Hc. by apply Himpl, Hall.
Qed.

Lemma split_comma_no_comma (s : string) :
  forallb (λ c, negb (Ascii.eqb c ","%char)) (chars s) = true →
  split_comma s = [s].
Proof.
  induction s as [|c s IH]; simpl; [done|].
  rewrite andb_true_iff. intros [Hc Hs]. rewrite (IH Hs).
  by destruct (Ascii.eqb c ","%char).
Qed.

Lemma split_comma_app (a b : string) :
  forallb (λ c, negb (Ascii.eqb c ","%char)) (chars a) = true →
  split_comma (a +:+ String ","%char b) = a :: split_comma b.
Proof.
  induction a as [|c a IH].
  - intros _. change (EmptyString +:+ String ","%char b) with (String ","%char b).
    simpl. revert b. assert (∀ s, split_comma s ≠ []) as Hne.
    { induction s as [|c s IHs]; simpl; [done|].
      destruct (split_comma s); [done|]. by destruct (Ascii.eqb c ","%char). }
    intros b. specialize (Hne b). by destruct (split_comma b).
  - simpl. rewrite andb_true_iff. intros [Hc Ha].
    change (String c a +:+ String ","%char b)
      with (String c (a +:+ String ","%char b)).
    simpl. rewrite (IH Ha). by destruct (Ascii.eqb c ","%char).
Qed.

Lemma split_comma_join (parts : list string) :
  parts ≠ [] →
  Forall (λ p, forallb (λ c, negb (Ascii.eqb c ","%char)) (chars p) = true) parts →
  split_comma (join_comma parts) = parts.
Proof.
  intros Hne Hall. induction Hall as [|p parts Hp Hall IH]; [done|].
  destruct parts as [|q parts].
  - simpl. by apply split_comma_no_comma.
  - change (join_comma (p :: q :: parts))
      with (p +:+ String ","%char (join_comma (q :: parts))).
    rewrite split_comma_app by done. by rewrite IH.
Qed.

Lemma parse_parts_decimal (ns : list N) :
  parse_parts (decimal <$> ns) = Some (Z.of_N <$> ns).
Proof.
  induction ns as [|n ns IH]; [done|]. rewrite !fmap_cons. simpl.
  destruct (decimal_chars n) as [Hne Hdec].
  assert (strip (decimal n) = decimal n) as ->.
  { unfold strip.
    assert (forallb (λ c, negb (isspace c)) (chars (decimal n)) = true) as Hns.
    { eapply forallb_decimal_impl; [|exact Hdec].
      intros c Hc. by destruct (isdecimal_facts c Hc) as (-> & _). }
    by rewrite (lstrip_no_space _ Hns), (rstrip_no_space _ Hns). }
  assert (str_isdigit (decimal n) = true) as ->.
  { unfold str_isdigit. destruct (decimal n) eqn:Hd; [done|].
    eapply forallb_decimal_impl; [|exact Hdec].
    intros c Hc. by destruct (isdecimal_facts c Hc) as (_ & -> & _). }
  by rewrite int_of_digits_decimal, IH.
Qed.

(** X15: [_parse_int_list] reads back a list of keys written the usual
    way: for every list of natural numbers (of at most 4300 digits each),
    the text of their decimal forms joined by commas parses to that list,
    in order; the empty text parses to the empty list. *)
Theorem parse_int_list_round_trip (ns : list N) :
  Forall (λ n, (n < 10 ^ 4300)%N) ns →
  _parse_int_list (join_comma (decimal <$> ns)) = Some (Z.of_N <$> ns).
Proof.
  intros _. unfold _parse_int_list.
  destruct ns as [|n ns]; [done|].
  rewrite split_comma_join; [apply parse_parts_decimal|done|].
  apply Forall_fmap, Forall_forall. intros m _. simpl.
  destruct (decimal_chars m) as [_ Hdec].
  eapply forallb_decimal_impl; [|exact Hdec].
  intros c Hc. by destruct (isdecimal_facts c Hc) as (_ & _ & ->).
Qed.

(** ** Taken places *)

Lemma row_seat_le_transitive : Transitive row_seat_le.
Proof. intros a b c. unfold row_seat_le. lia. Qed.

Lemma row_seat_le_total : Total row_seat_le.
Proof. intros a b. unfold row_seat_le. lia. Qed.

Lemma get_taken_places_elem_of (st : Store) (obj r s : Z) :
  (r, s) ∈ get_taken_places st obj ↔ taken st obj r s.
Proof.
  unfold get_taken_places, taken. rewrite merge_sort_Permutation.
  rewrite list_elem_of_fmap. split.
  - intros ([k t] & [= -> ->] & Hkt). apply elem_of_map_to_list in Hkt.
    apply map_lookup_filter_Some in Hkt as [Hk Hs]. by exists k, t.
  - intros (k & t & Hk & Hs & <- & <-). exists (k, t). split; [done|].
    apply elem_of_map_to_list, map_lookup_filter_Some. done.
Qed.

(** X16: the taken places of a session are listed by row, then by seat;
    a place is listed exactly when a Ticket of the session holds it; there
    is one entry per Ticket, so the list is as long as the count of
    tickets sold that the session list subtracts from the capacity; and
    while no seat is sold twice, no place is listed twice. *)
Theorem get_taken_places_listing (db : Database) (st : Store) (obj : Z) :
  StronglySorted row_seat_le (get_taken_places st obj) ∧
  (∀ r s, (r, s) ∈ get_taken_places st obj ↔ taken st obj r s) ∧
  (∀ a, MovieSessionViewSet_queryset db st !! obj = Some a →
        tickets_sold a = Z.of_nat (length (get_taken_places st obj))) ∧
  (seat_unique st → NoDup (get_taken_places st obj)).
Proof.
  split_and!.
  - apply (@StronglySorted_merge_sort _ _ _ row_seat_le_transitive
             row_seat_le_total).
  - intros r s. apply get_taken_places_elem_of.
  - intros a (ms & m & h & _ & _ & _ & ->)%queryset_lookup. simpl.
    unfold get_taken_places, qs_count.
    by rewrite merge_sort_Permutation, length_fmap, length_map_to_list.
  - intros Hu. unfold get_taken_places. rewrite merge_sort_Permutation.
    apply NoDup_fmap_2_strong; [|apply NoDup_map_to_list].
    intros [k1 t1] [k2 t2].
    rewrite !elem_of_map_to_list. unfold session_tickets.
    rewrite !map_lookup_filter_Some. simpl. intros [H1 Hs1] [H2 Hs2] [= Hr Hs].
    assert (k1 = k2) as -> by (eapply Hu; [exact H1|exact H2|congruence..]).
    congruence.
Qed.

(** X17: the detail view and the create action agree on what is free: an
    item for an existing session and a seat inside its hall passes
    [validate] exactly when its place is not among the taken places the
    detail view of the session lists. *)
Theorem free_seat_iff_not_listed (st : Store) (d : TicketData)
    (ms : MovieSession) (h : CinemaHall) :
  movie_sessions st !! data_movie_session d = Some ms →
  cinema_halls st !! cinema_hall ms = Some h →
  1 ≤ data_row d ≤ rows h → 1 ≤ data_seat d ≤ seats_in_row h →
  (∃ a, run_child_validation st d = inr a) ↔
  (data_row d, data_seat d) ∉ get_taken_places st (data_movie_session d).
Proof.
  intros Hms Hh Hr Hs. rewrite get_taken_places_elem_of. split.
  - by intros [a (_ & _ & _ & _ & _ & _ & _ & Hfree)%run_child_validation_inr].
  - intros Hfree. eexists. apply run_child_validation_inr. by exists ms, h.
Qed.

(** ** The movie list *)

Lemma filter_linked_elem_of (links : gset (Z * Z)) (ids : list Z)
    (qs : list (Z * Movie)) (r : Z * Movie) :
  r ∈ filter_linked links ids qs ↔ r ∈ qs ∧ ∃ x, x ∈ ids ∧ (r.1, x) ∈ links.
Proof.
  unfold filter_linked. rewrite list_elem_of_bind. split.
  - intros (r' & Hr & Hr'). apply list_elem_of_bind in Hr as ([p x] & Hc & Hl).
    case_decide as Hd; [|by apply not_elem_of_nil in Hc].
    apply list_elem_of_singleton in Hc as ->. simpl in Hd. destruct Hd as [-> Hx].
    split; [done|]. exists x. split; [done|]. apply elem_of_elements in Hl.
    by destruct r'.
  - intros (Hr & x & Hx & Hl). exists r. split; [|done].
    apply list_elem_of_bind. exists (r.1, x). split.
    + rewrite decide_True by done. by left.
    + by apply elem_of_elements.
Qed.

Section MovieListFacts.

#[local] Set Default Proof Using "Type".

Variable icontains : string → string → bool.

#[local] Abbreviation get_queryset := (MovieViewSet_get_queryset icontains).

(** The rows after one of the two key filters of [get_queryset]. *)
Lemma key_filter_cases (links : gset (Z * Z)) (param : option string)
    (qs : list (Z * Movie)) :
  match param with
  | Some (String c g) =>
      match _parse_int_list (String c g) with
      | None => inl ValueError
      | Some [] => inr qs
      | Some ids => inr (filter_linked links ids qs)
      end
  | _ => inr qs
  end =
  match requested_ids param with
  | None => inl ValueError
  | Some [] => inr qs
  | Some ids => inr (filter_linked links ids qs)
  end.
Proof. by destruct param as [[|c g]|]. Qed.

Lemma key_filter_elem_of (links : gset (Z * Z)) (ids : list Z)
    (qs : list (Z * Movie)) (r : Z * Movie) :
  r ∈ match ids with [] => qs | _ => filter_linked links ids qs end ↔
  r ∈ qs ∧ linked_to links ids r.1.
Proof.
  unfold linked_to. destruct ids as [|x ids].
  - split; [by auto|by intros [? _]].
  - rewrite filter_linked_elem_of. split.
    + intros [? ?]. by auto.
    + intros [? [?|?]]; done.
Qed.

(** X18: when the movie list does not fail, it holds no movie twice, and a
    movie is in it exactly when its title passes the [title] parameter, it
    has one of the genres the [genres] parameter asks for, and one of the
    actors the [actors] parameter asks for; a parameter that is absent,
    empty, or names no number asks for nothing and leaves every movie in. *)
Theorem movie_list_membership (title_param genres actors : option string)
    (st : Store) (links : MovieLinks) (rows : list (Z * Movie)) :
  get_queryset title_param genres actors st links = inr rows →
  ∃ genre_ids actor_ids,
    requested_ids genres = Some genre_ids ∧
    requested_ids actors = Some actor_ids ∧
    NoDup rows ∧
    ∀ pk m, (pk, m) ∈ rows ↔
      movies st !! pk = Some m ∧
      title_matches icontains title_param m ∧
      linked_to (movie_genres links) genre_ids pk ∧
      linked_to (movie_actors links) actor_ids pk.
Proof.
  unfold MovieViewSet_get_queryset. rewrite !key_filter_cases.
  destruct (requested_ids genres) as [genre_ids|]; [|done].
  set (qs0 := match title_param with
              | Some (String c t) =>
                  filter (λ r : Z * Movie, icontains (title r.2) (String c t))
                         (map_to_list (movies st))
              | _ => map_to_list (movies st)
              end).
  assert (∀ pk m, (pk, m) ∈ qs0 ↔
            movies st !! pk = Some m ∧ title_matches icontains title_param m)
    as Hqs0.
  { intros pk m. unfold qs0, title_matches.
    destruct title_param as [[|c t]|];
      rewrite ?list_elem_of_filter, elem_of_map_to_list; simpl.
    - split; [by auto|by intros [? _]].
    - rewrite Is_true_true. split; intros [? ?]; done.
    - split; [by auto|by intros [? _]]. }
  clearbody qs0.
  set (qs1 := match genre_ids with
              | [] => qs0
              | _ => filter_linked (movie_genres links) genre_ids qs0
              end).
  assert (match genre_ids with
          | [] => inr qs0
          | _ => inr (filter_linked (movie_genres links) genre_ids qs0)
          end = (inr qs1 : Exception + list (Z * Movie))) as ->
    by (unfold qs1; by destruct genre_ids).
  rewrite key_filter_cases.
  destruct (requested_ids actors) as [actor_ids|]; [|done].
  set (qs2 := match actor_ids with
              | [] => qs1
              | _ => filter_linked (movie_actors links) actor_ids qs1
              end).
  assert (match actor_ids with
          | [] => inr qs1
          | _ => inr (filter_linked (movie_actors links) actor_ids qs1)
          end = (inr qs2 : Exception + list (Z * Movie))) as ->
    by (unfold qs2; by destruct actor_ids).
  intros [= <-]. exists genre_ids, actor_ids.
  split_and!; [done|done|apply NoDup_remove_dups|].
  - intros pk m. rewrite elem_of_remove_dups.
    unfold qs2, qs1.
    rewrite (key_filter_elem_of (movie_actors links) actor_ids).
    rewrite (key_filter_elem_of (movie_genres links) genre_ids).
    rewrite Hqs0. simpl. tauto.
Qed.

(** X19: the movie list fails exactly when [_parse_int_list] raises on the
    [genres] or on the [actors] parameter, and then with its [ValueError];
    the title parameter never makes it fail. *)
Theorem movie_list_fails_iff (title_param genres actors : option string)
    (st : Store) (links : MovieLinks) :
  (get_queryset title_param genres actors st links = inl ValueError ↔
   requested_ids genres = None ∨ requested_ids actors = None) ∧
  (∀ e, get_queryset title_param genres actors st links = inl e →
        e = ValueError).
Proof.
  unfold MovieViewSet_get_queryset. rewrite key_filter_cases.
  destruct (requested_ids genres) as [[|g gs]|];
    [rewrite key_filter_cases; destruct (requested_ids actors) as [[|a acs]|]..|].
  all: split; [split; [try done; by auto|intros [?|?]; done]|].
  all: intros e; try done; by intros [= <-].
Qed.

(** X20: a [genres] or [actors] parameter that names no number (letters,
    signs, commas only) is ignored: the movie list is the one without the
    parameter, not an empty one. *)
Theorem numberless_filter_is_ignored (title_param param other : option string)
    (st : Store) (links : MovieLinks) :
  requested_ids param = Some [] →
  get_queryset title_param param other st links =
    get_queryset title_param None other st links ∧
  get_queryset title_param other param st links =
    get_queryset title_param other None st links.
Proof.
  intros Hp. destruct param as [[|c g]|]; [done| |done].
  simpl in Hp. unfold MovieViewSet_get_queryset. by rewrite Hp.
Qed.

End MovieListFacts.

(** ** The movie parameter of the session list *)

(** X21: a [movie] parameter that is the decimal form of a number (of at
    most 4300 digits) keeps exactly the sessions of that movie; a parameter
    that is not all digits is ignored. *)
Theorem movie_parameter_filter (db : Database) (date : option Z) (n : N)
    (st : Store) :
  (n < 10 ^ 4300)%N →
  (∃ qs, MovieSessionViewSet_get_queryset_raw db date (Some (decimal n)) st
           = inr qs ∧
     ∀ pk a, qs !! pk = Some a ↔
       MovieSessionViewSet_get_queryset db date None st !! pk = Some a ∧
       movie (session a) = Z.of_N n) ∧
  (∀ m, str_isdigit m = false →
     MovieSessionViewSet_get_queryset_raw db date (Some m) st =
     MovieSessionViewSet_get_queryset_raw db date None st).
Proof.
  intros _. split.
  - unfold MovieSessionViewSet_get_queryset_raw, parse_movie_param.
    destruct (decimal_chars n) as [Hne Hdec].
    assert (str_isdigit (decimal n) = true) as ->.
    { unfold str_isdigit. destruct (decimal n) eqn:Hd; [done|].
      eapply forallb_decimal_impl; [|exact Hdec].
      intros c Hc. by destruct (isdecimal_facts c Hc) as (_ & -> & _). }
    rewrite int_of_digits_decimal. eexists. split; [done|].
    intros pk a. unfold MovieSessionViewSet_get_queryset.
    by rewrite map_lookup_filter_Some.
  - intros m Hm. unfold MovieSessionViewSet_get_queryset_raw, parse_movie_param.
    by rewrite Hm.
Qed.

(** ** Updating a hall *)

(** X22: the update of an existing hall first runs the validators of the
    serializer: data they refuse is answered with status 400 and their
    errors, and nothing is written. Data they accept replaces the row of
    the hall and nothing else: the other halls, the sessions, the tickets
    and the orders stay, every session keeps its tickets_sold, and the
    capacity the storage computes for a session becomes that of rows times
    seats_in_row of the new row exactly for the sessions in that hall. *)
Theorem hall_update_changes_capacity (db : Database) (models : ModelDeclarations)
    (pk : Z) (data h0 : CinemaHall) (st : Store) :
  cinema_halls st !! pk = Some h0 →
  let errors := hall_validators models st (Some pk) data in
  let answer := CinemaHallViewSet_update models pk data st in
  (errors ≠ [] → answer = (HTTP_400 (FieldErrors errors), st)) ∧
  (errors = [] →
     answer.1 = HTTP_200 (HallBody pk data) ∧
     cinema_halls answer.2 = <[pk := data]> (cinema_halls st) ∧
     movie_sessions answer.2 = movie_sessions st ∧
     tickets answer.2 = tickets st ∧
     orders answer.2 = orders st ∧
     ∀ s a, MovieSessionViewSet_queryset db st !! s = Some a →
       ∃ a', MovieSessionViewSet_queryset db answer.2 !! s = Some a' ∧
         tickets_sold a' = tickets_sold a ∧
         hall_capacity a' =
           if decide (cinema_hall (session a) = pk)
           then sql_integer (int_max db) (rows data * seats_in_row data)
           else hall_capacity a).
Proof.
  intros Hpk errors answer. unfold answer, errors, CinemaHallViewSet_update.
  rewrite Hpk. destruct (hall_validators models st (Some pk) data) as [|e es].
  2: { split; [done|]. intros [=]. }
  split; [done|]. intros _.
  cbn [fst snd set_cinema_halls cinema_halls movie_sessions tickets orders].
  split_and!; [done..|].
  intros s a (ms & m & h & Hms & Hm & Hh & ->)%queryset_lookup. simpl.
  destruct (decide (cinema_hall ms = pk)) as [Heq|Hne].
  - eexists. split.
    + apply queryset_lookup. exists ms, m, data. simpl.
      split_and!; [done|done| |done]. by rewrite Heq, lookup_insert_eq.
    + done.
  - eexists. split.
    + apply queryset_lookup. exists ms, m, h. simpl.
      split_and!; [done|done| |done]. by rewrite lookup_insert_ne.
    + done.
Qed.

(** ** When the storage refuses a row *)

Section StorageRefusal.

#[local] Set Default Proof Using "Type".

Variable order_constraints : Store → Order → bool.
Variable ticket_constraints : Store → Ticket → bool.

#[local] Abbreviation bulk_create := (Ticket_objects_bulk_create ticket_constraints).
#[local] Abbreviation create := (create order_constraints ticket_constraints).
#[local] Abbreviation OrderViewSet_create :=
  (OrderViewSet_create order_constraints ticket_constraints).

Lemma bulk_create_raises (objs : list Ticket) (st st' : Store) (e : Exception) :
  bulk_create objs st = (inl e, st') → e = IntegrityError.
Proof.
  revert st. induction objs as [|t objs IH]; intros st; simpl; [done|].
  unfold bind, Ticket_insert. destruct (ticket_constraints st t).
  - apply IH.
  - unfold raise. by intros [= <- _].
Qed.

(** X23: for an authenticated user a request that passes validation has
    two outcomes only: the answer 201, or, when the storage refuses the
    order row or one of the ticket rows, the answer 500 with
    [IntegrityError] and a store in which nothing of the request is left,
    the order row written before the refused ticket included. *)
Theorem valid_request_201_or_rolled_back (uid now : Z) (data : list TicketData)
    (st : Store) (v : list TicketAttrs) :
  is_valid st data = inr v →
  (∃ body st', OrderViewSet_create (User uid) now data st = (HTTP_201 body, st')) ∨
  OrderViewSet_create (User uid) now data st = (HTTP_500 IntegrityError, st).
Proof.
  intros Hv. unfold OrderViewSet_create. rewrite Hv.
  destruct (create (User uid) now v st) as [[e|ord] st'] eqn:Hc.
  - right. pose proof (create_raises _ _ _ _ _ _ _ _ Hc) as ->.
    revert Hc. unfold create, atomic, bind, Order_objects_create.
    destruct (order_constraints st _).
    + destruct (bulk_create _ _) as [[e'|[]] st1] eqn:Hb; [|done].
      apply bulk_create_raises in Hb as ->. by intros [= <-].
    + unfold raise. by intros [= <-].
  - left. by eexists _, _.
Qed.

End StorageRefusal.

(** ** The further properties at work on the sample data *)

Lemma order_list_page_shows_one_order_witness :
  ∃ d, order_list_data sold_out_store (1, mkOrder 7 5) = Some d ∧
    OrderViewSet_list (User 7) 1 sold_out_store =
      (HTTP_200 (OrderPageBody (mkOrderPage 1 None None [d])), sold_out_store).
Proof.
  eexists. split; [vm_compute; reflexivity|].
  eapply proj1.
  apply (order_list_page_shows_one_order 7 sold_out_store 0 (1, mkOrder 7 5)).
  - vm_compute. reflexivity.
  - vm_compute. reflexivity.
Defined.

Lemma create_answer_echoes_request_witness :
  [mkData 2 1 1; mkData 1 1 1] ≡ₚ [mkData 1 1 1; mkData 2 1 1] ∧ 5 = 5 ∧
  orders demo_store !! 1 = None ∧
  ∃ uid, User 7 = User uid ∧ orders sold_out_store !! 1 = Some (mkOrder uid 5).
Proof.
  apply (create_answer_echoes_request nc_order nc_ticket (User 7) 5
           [mkData 1 1 1; mkData 2 1 1] demo_store sold_out_store 1 5
           [mkData 2 1 1; mkData 1 1 1]).
  - intros k t Hk. discriminate Hk.
  - vm_compute. reflexivity.
Defined.

Lemma created_order_is_listed_witness :
  length (OrderViewSet_get_queryset 7 sold_out_store) =
    S (length (OrderViewSet_get_queryset 7 demo_store)).
Proof.
  eapply proj1, proj2.
  apply (created_order_is_listed nc_order nc_ticket 7 5
           [mkData 1 1 1; mkData 2 1 1] demo_store sold_out_store
           (OrderCreateBody 1 [mkData 2 1 1; mkData 1 1 1] 5)).
  vm_compute. reflexivity.
Defined.

Lemma create_lowers_availability_witness :
  ∃ a', MovieSessionViewSet_queryset sqlite sold_out_store !! 1 = Some a' ∧
    hall_capacity a' = Some 2 ∧
    tickets_sold a' = 0 + 2 ∧
    (∀ available, Some 2 = Some available →
       - bigint_max sqlite - 1 ≤ available - 2 ≤ bigint_max sqlite →
       tickets_available a' = Some (available - 2)).
Proof.
  apply (create_lowers_availability nc_order nc_ticket sqlite (User 7) 5
           [mkData 1 1 1; mkData 2 1 1] demo_store sold_out_store
           (OrderCreateBody 1 [mkData 2 1 1; mkData 1 1 1] 5) 1
           (mkAnnotated (mkMovieSession 86400 1 1)
              (mkMovie "Heat" "Crime drama" 170) (mkCinemaHall "Blue" 2 1) 0
              (Some 2) (Some 2))).
  - vm_compute. reflexivity.
  - vm_compute. reflexivity.
Defined.

Lemma sold_seat_refused_while_ticket_stays_witness :
  ∃ e, is_validation_error e ∧
    OrderViewSet_create nc_order nc_ticket (User 8) 9
      [mkData 2 1 1] sold_out_store = (HTTP_400 e, sold_out_store).
Proof.
  apply (sold_seat_refused_while_ticket_stays nc_order nc_ticket (User 7) 5
           [mkData 1 1 1; mkData 2 1 1] demo_store sold_out_store sold_out_store
           (OrderCreateBody 1 [mkData 2 1 1; mkData 1 1 1] 5)
           8 9 [mkData 2 1 1] (mkData 2 1 1)).
  - vm_compute. reflexivity.
  - reflexivity.
  - exact fk_sessions_sold_out_store.
  - right. left.
  - left.
Defined.

Lemma create_succeeds_iff_valid_witness :
  ∃ body st', OrderViewSet_create nc_order nc_ticket (User 7) 5
                [mkData 1 1 1] demo_store = (HTTP_201 body, st').
Proof.
  apply (create_succeeds_iff_valid nc_order nc_ticket 7 5 [mkData 1 1 1]
           demo_store); [reflexivity|reflexivity|].
  split.
  - constructor; [|constructor].
    exists (mkMovieSession 86400 1 1), (mkCinemaHall "Blue" 2 1).
    split_and!; [reflexivity|reflexivity|simpl; lia..|].
    intros (k & t & Hk & _). discriminate Hk.
  - apply NoDup_singleton.
Defined.

Lemma empty_order_is_created_witness :
  OrderViewSet_create nc_order nc_ticket (User 8) 9 [] sold_out_store =
    (HTTP_201 (OrderCreateBody 2 [] 9),
     set_orders sold_out_store
       (<[2 := mkOrder 8 9]> (orders sold_out_store))).
Proof.
  apply (empty_order_is_created nc_order nc_ticket 8 9 sold_out_store).
  - reflexivity.
  - apply (bool_decide_unpack _). vm_compute. exact I.
Defined.

Lemma item_errors_follow_the_request_witness :
  length [Message "This place is already taken.";
          FieldError "row" "Row number is out of range."] =
  length [mkData 1 1 1; mkData 3 1 1].
Proof.
  eapply proj1.
  apply (item_errors_follow_the_request sold_out_store
           [mkData 1 1 1; mkData 3 1 1]).
  vm_compute. reflexivity.
Defined.

Lemma parse_int_list_raises_witness : _parse_int_list superscript_text = None.
Proof.
  apply (parse_int_list_raises superscript_text); [vm_compute; lia|].
  exists (String (ascii_of_N 178) EmptyString), (ascii_of_N 178).
  split_and!; [vm_compute; right; left|reflexivity|left|by left].
Defined.

Lemma parse_int_list_ascii_witness :
  ∃ ids, _parse_int_list "7, x,-3,12" = Some ids ∧
    Forall (λ n, 0 ≤ n) ids ∧
    (length ids ≤ length (split_comma "7, x,-3,12"))%nat.
Proof.
  apply (parse_int_list_ascii "7, x,-3,12"); [vm_compute; lia|].
  apply (bool_decide_unpack _). vm_compute. exact I.
Defined.

Lemma parse_int_list_round_trip_witness :
  _parse_int_list "3,12,305" = Some [3; 12; 305].
Proof.
  apply (parse_int_list_round_trip [3; 12; 305]%N).
  apply (bool_decide_unpack _). vm_compute. exact I.
Defined.

Lemma free_seat_iff_not_listed_witness :
  (∃ a, run_child_validation sold_out_store (mkData 2 1 1) = inr a) ↔
  (2, 1) ∉ get_taken_places sold_out_store 1.
Proof.
  apply (free_seat_iff_not_listed sold_out_store (mkData 2 1 1)
           (mkMovieSession 86400 1 1) (mkCinemaHall "Blue" 2 1));
    [reflexivity|reflexivity|simpl; lia|simpl; lia].
Defined.

Lemma movie_list_membership_witness :
  ∃ genre_ids actor_ids,
    requested_ids (Some "1, x") = Some genre_ids ∧
    requested_ids None = Some actor_ids ∧
    NoDup [(1, mkMovie "Heat" "Crime drama" 170)] ∧
    ∀ pk m, (pk, m) ∈ [(1, mkMovie "Heat" "Crime drama" 170)] ↔
      movies demo_movies !! pk = Some m ∧
      title_matches starts_with (Some "H") m ∧
      linked_to (movie_genres demo_links) genre_ids pk ∧
      linked_to (movie_actors demo_links) actor_ids pk.
Proof.
  apply (movie_list_membership starts_with (Some "H") (Some "1, x") None
           demo_movies demo_links).
  vm_compute. reflexivity.
Defined.

Lemma numberless_filter_is_ignored_witness :
  MovieViewSet_get_queryset starts_with None (Some "abc, -1") (Some "5")
    demo_movies demo_links =
  MovieViewSet_get_queryset starts_with None None (Some "5")
    demo_movies demo_links.
Proof.
  eapply proj1.
  apply (numberless_filter_is_ignored starts_with None (Some "abc, -1")
           (Some "5") demo_movies demo_links).
  vm_compute. reflexivity.
Defined.

Lemma movie_parameter_filter_witness :
  ∃ qs, MovieSessionViewSet_get_queryset_raw sqlite None (Some "1") sold_out_store
          = inr qs ∧
    ∀ pk a, qs !! pk = Some a ↔
      MovieSessionViewSet_get_queryset sqlite None None sold_out_store !! pk
        = Some a ∧
      movie (session a) = 1.
Proof.
  eapply proj1.
  apply (movie_parameter_filter sqlite None 1%N sold_out_store).
  vm_compute. reflexivity.
Defined.

Lemma hall_update_changes_capacity_witness :
  CinemaHallViewSet_update demo_models 1 (mkCinemaHall EmptyString 3 4)
    sold_out_store =
  (HTTP_400 (FieldErrors [FieldError "name" "This field may not be blank."]),
   sold_out_store) ∧
  cinema_halls
    (CinemaHallViewSet_update demo_models 1 (mkCinemaHall "Blue" 3 4)
       sold_out_store).2 =
  <[1 := mkCinemaHall "Blue" 3 4]> (cinema_halls sold_out_store).
Proof.
  split.
  - destruct (hall_update_changes_capacity sqlite demo_models 1
                (mkCinemaHall EmptyString 3 4) (mkCinemaHall "Blue" 2 1)
                sold_out_store) as [Hrefused _]; [reflexivity|].
    apply Hrefused. discriminate.
  - destruct (hall_update_changes_capacity sqlite demo_models 1
                (mkCinemaHall "Blue" 3 4) (mkCinemaHall "Blue" 2 1)
                sold_out_store) as [_ Haccepted]; [reflexivity|].
    apply Haccepted. reflexivity.
Defined.

Lemma valid_request_201_or_rolled_back_witness :
  OrderViewSet_create nc_order refuse_row_two (User 7) 5
    [mkData 1 1 1; mkData 2 1 1] demo_store =
  (HTTP_500 IntegrityError, demo_store).
Proof.
  destruct (valid_request_201_or_rolled_back nc_order refuse_row_two 7 5
              [mkData 1 1 1; mkData 2 1 1] demo_store
              [mkAttrs 1 1 (1, mkMovieSession 86400 1 1);
               mkAttrs 2 1 (1, mkMovieSession 86400 1 1)])
    as [(body & st' & H)|H].
  - vm_compute. reflexivity.
  - vm_compute in H. discriminate H.
  - exact H.
Defined.
